(** * TaskGlitch: the task store of the hook [useTasks] and the CSV export,
    embedded in Rocq.

    The development follows the source function by function:
    [normalizeTasks], [addTask], [updateTask], [deleteTask], [undoDelete]
    and [clearLastDeleted] of the hook on one side, [toCSV] and [escapeCsv]
    on the other.  Pure functions are Rocq functions; the hook's state is a
    record passed explicitly; a function that can throw returns an option. *)

From Stdlib Require Import ZArith QArith Qabs Qround String Ascii List Lia.
From Stdlib Require Import DecimalString DecimalZ.
From stdpp Require Import base option list gmap strings pretty.

Set Default Proof Using "Type".
Local Open Scope string_scope.
Local Open Scope Z_scope.
Local Open Scope list_scope.

(** ** JavaScript values

    A JavaScript number is [NaN], one of the two infinities or a finite
    double.  Every finite double is a rational, and the only operations the
    code applies to numbers ([Number.isFinite], comparison with [0],
    [Math.round], [Math.max]) are exact on doubles, so a finite number is
    carried as a rational. *)

Inductive JNum : Type :=
  | NaN
  | PInf
  | NInf
  | Fin (q : Q).

(** The values a field of a raw record, of a new task or of a patch can
    hold.  The code inspects an object-valued field only through [Number(v)],
    [new Date(v)] and [v <= 0]; an object is therefore carried as the number
    and the time value these coercions give for it. *)
Inductive JsValue : Type :=
  | VUndef
  | VNull
  | VBool (b : bool)
  | VNum (n : JNum)
  | VStr (s : string)
  | VObj (num : JNum) (time : option Z).

Definition isFinite (n : JNum) : bool :=
  match n with Fin _ => true | _ => false end.

(** [n > 0] *)
Definition num_gt0 (n : JNum) : bool :=
  match n with
  | Fin q => negb (Qle_bool q 0)
  | PInf => true
  | NaN | NInf => false
  end.

(** [n <= 0] *)
Definition num_le0 (n : JNum) : bool :=
  match n with
  | Fin q => Qle_bool q 0
  | NInf => true
  | NaN | PInf => false
  end.

(** [Math.round]: the closest integer, a tie going towards [+Infinity]. *)
Definition Math_round (q : Q) : Z := Qfloor (q + (1 # 2)).

Definition num_of_Z (z : Z) : JNum := Fin (inject_Z z).

(** [v === undefined], [v == null] (as [??] tests it), truthiness. *)
Definition is_undefined (v : JsValue) : bool :=
  match v with VUndef => true | _ => false end.

Definition is_nullish (v : JsValue) : bool :=
  match v with VUndef | VNull => true | _ => false end.

Definition truthy (v : JsValue) : bool :=
  match v with
  | VUndef | VNull => false
  | VBool b => b
  | VNum NaN => false
  | VNum (Fin q) => negb (Qeq_bool q 0)
  | VNum _ => true
  | VStr s => negb (String.eqb s "")
  | VObj _ _ => true
  end.

(** ** Strings

    [String.prototype.trim] removes white space and line terminators at both
    ends.  Strings are sequences of 8-bit code units; the white space among
    them is TAB, LF, VT, FF, CR, SP and NBSP. *)

Definition is_space (c : ascii) : bool :=
  let n := nat_of_ascii c in
  ((9 <=? n)%nat && (n <=? 13)%nat) || (n =? 32)%nat || (n =? 160)%nat.

Fixpoint trim_start (s : string) : string :=
  match s with
  | String c s' => if is_space c then trim_start s' else s
  | EmptyString => EmptyString
  end.

Fixpoint trim_end (s : string) : string :=
  match s with
  | String c s' =>
      match trim_end s' with
      | EmptyString => if is_space c then EmptyString else String c EmptyString
      | r => String c r
      end
  | EmptyString => EmptyString
  end.

Definition trim (s : string) : string := trim_end (trim_start s).

Definition nonempty (s : string) : bool := negb (String.eqb s "").

(** [typeof v === 'string' && v.trim() ? v.trim() : undefined] *)
Definition trimmed_string (v : JsValue) : option string :=
  match v with
  | VStr s => if nonempty (trim s) then Some (trim s) else None
  | _ => None
  end.

(** ** The task record

    Modelled from the spec: the type [Task] imported from [@/types] is not
    among the sources.  Its fields are those of the data model of the spec,
    the same that [normalizeTasks] and [addTask] fill in; the members of the
    two enumerations are the strings these functions compare with. *)

Inductive Priority : Type := High | Medium | Low.
Inductive Status : Type := Todo | InProgress | Done.

Definition priority_string (p : Priority) : string :=
  match p with High => "High" | Medium => "Medium" | Low => "Low" end.

Definition status_string (s : Status) : string :=
  match s with Todo => "Todo" | InProgress => "In Progress" | Done => "Done" end.

Record Task : Type := mkTask {
  id : string;
  title : string;
  revenue : JNum;
  timeTaken : JNum;
  priority : Priority;
  status : Status;
  notes : string;
  createdAt : string;
  completedAt : option string
}.

(** An element of the array handed to [normalizeTasks], the argument of
    [addTask] and the patch of [updateTask]: the same fields holding any
    value; a field that is missing reads as [undefined]. *)
Module Raw.
Record t : Type := mk {
  id : JsValue;
  title : JsValue;
  revenue : JsValue;
  timeTaken : JsValue;
  priority : JsValue;
  status : JsValue;
  notes : JsValue;
  createdAt : JsValue;
  completedAt : JsValue
}.

(** [{}] *)
Definition empty : t :=
  mk VUndef VUndef VUndef VUndef VUndef VUndef VUndef VUndef VUndef.
End Raw.

(** [v === 'High' || v === 'Medium' || v === 'Low'] *)
Definition priority_of (v : JsValue) : option Priority :=
  match v with
  | VStr s =>
      if String.eqb s "High" then Some High
      else if String.eqb s "Medium" then Some Medium
      else if String.eqb s "Low" then Some Low
      else None
  | _ => None
  end.

(** [v === 'Todo' || v === 'In Progress' || v === 'Done'] *)
Definition status_of (v : JsValue) : option Status :=
  match v with
  | VStr s =>
      if String.eqb s "Todo" then Some Todo
      else if String.eqb s "In Progress" then Some InProgress
      else if String.eqb s "Done" then Some Done
      else None
  | _ => None
  end.

Definition is_Done (s : Status) : bool :=
  match s with Done => true | _ => false end.

(** [typeof v === 'string' ? v : undefined] *)
Definition string_of (v : JsValue) : option string :=
  match v with VStr s => Some s | _ => None end.

(** [!c] for an optional string: [undefined] and [''] are falsy. *)
Definition falsy_string (c : option string) : bool :=
  match c with
  | None => true
  | Some s => String.eqb s ""
  end.

(** [Math.round] and [Math.max] on numbers. *)
Definition Math_round_num (n : JNum) : JNum :=
  match n with
  | Fin q => num_of_Z (Math_round q)
  | _ => n
  end.

Definition Math_max (a b : JNum) : JNum :=
  match a, b with
  | NaN, _ | _, NaN => NaN
  | PInf, _ | _, PInf => PInf
  | NInf, x | x, NInf => x
  | Fin p, Fin q => if Qle_bool p q then Fin q else Fin p
  end.

(** ** Dates

    A [Date] holds a time value in milliseconds or is invalid ([None]).
    [TimeClip] is the range check every [Date] constructor applies. *)

Definition max_time : Z := 8640000000000000.

Definition TimeClip (ms : Z) : option Z :=
  if Z.abs ms <=? max_time then Some ms else None.

Definition Qtruncate (q : Q) : Z := Z.quot (Qnum q) (Z.pos (Qden q)).

(** [new Date(n)] for a number: out of range when [abs n] exceeds
    [max_time], the integral part of [n] otherwise. *)
Definition Date_of_num (n : JNum) : option Z :=
  match n with
  | Fin q =>
      if Qle_bool (Qabs q) (inject_Z max_time) then Some (Qtruncate q) else None
  | _ => None
  end.

(** ** CSV export ([utils/csv.ts]) *)

Definition dquote : ascii := "034"%char.
Definition comma : ascii := ","%char.
Definition LF : ascii := "010"%char.
Definition CR : ascii := "013"%char.

(** The character class of the pattern tested in [escapeCsv]: a double
    quote, a comma, a line feed or a carriage return. *)
Definition special_char (c : ascii) : bool :=
  Ascii.eqb c dquote || Ascii.eqb c comma || Ascii.eqb c LF || Ascii.eqb c CR.

Fixpoint has_special (v : string) : bool :=
  match v with
  | EmptyString => false
  | String c v' => special_char c || has_special v'
  end.

(** The global [replace] of [escapeCsv]: every double quote is doubled. *)
Fixpoint double_quotes (v : string) : string :=
  match v with
  | EmptyString => EmptyString
  | String c v' =>
      if Ascii.eqb c dquote
      then String dquote (String dquote (double_quotes v'))
      else String c (double_quotes v')
  end.

(** The template that puts [escaped] between two double quotes. *)
Definition quoted (escaped : string) : string :=
  String dquote (escaped +:+ String dquote EmptyString).

Definition escapeCsv (v : string) : string :=
  let needsQuote := has_special v in
  let escaped := double_quotes v in
  if needsQuote then quoted escaped else escaped.

Definition headers : list string :=
  ["id"; "title"; "revenue"; "timeTaken"; "priority"; "status"; "notes"].

Section CSV.

(** [String(x)] for a finite number [x]. *)
Variable NumberToString : Q → string.

(** [String(Number.isFinite(n) ? n : '')] *)
Definition number_cell (n : JNum) : string :=
  match n with
  | Fin q => NumberToString q
  | _ => ""
  end.

Definition csv_row (t : Task) : list string :=
  [ id t;
    escapeCsv (title t);
    number_cell (revenue t);
    number_cell (timeTaken t);
    priority_string (priority t);
    status_string (status t);
    escapeCsv (notes t) ].

Definition toCSV (tasks : list Task) : string :=
  let rows := csv_row <$> tasks in
  String.concat (String LF EmptyString)
    (String.concat "," headers :: (String.concat "," <$> rows)).

End CSV.

(** ** A sample runtime

    The model below takes three functions of the JavaScript runtime as
    parameters: the conversion of a string to a number, [Date.parse] and
    [Date.prototype.toISOString].  The examples instantiate them with the
    functions of this section, which read and print decimal integers only:
    [sample_StringToNumber] agrees with JavaScript on blank strings and on
    unsigned decimal integers, and [sample_Date_parse] inverts
    [sample_toISOString] the way [Date.parse] inverts [toISOString]. *)

Definition digit_value (c : ascii) : option Z :=
  let n := nat_of_ascii c in
  if ((48 <=? n)%nat && (n <=? 57)%nat)%bool then Some (Z.of_nat n - 48) else None.

Fixpoint digits_value (s : string) (acc : Z) : option Z :=
  match s with
  | EmptyString => Some acc
  | String c s' =>
      match digit_value c with
      | Some d => digits_value s' (10 * acc + d)
      | None => None
      end
  end.

Definition sample_StringToNumber (s : string) : JNum :=
  match digits_value (trim s) 0 with
  | Some z => num_of_Z z
  | None => NaN
  end.

Definition sample_toISOString (ms : Z) : string := "@" +:+ pretty ms.

Definition sample_Date_parse (s : string) : option Z :=
  match s with
  | String "@" (String "-" (String c s')) =>
      digits_value (String c s') 0 ≫= λ z, TimeClip (- z)
  | String "@" (String c s') => digits_value (String c s') 0 ≫= TimeClip
  | _ => None
  end.

(** ** Records and tasks of the examples *)

(** A new task, or a patch, that gives the listed fields only. *)
Definition raw_id (s : string) : Raw.t :=
  Raw.mk (VStr s) VUndef VUndef VUndef VUndef VUndef VUndef VUndef VUndef.
Definition patch_of_title (v : JsValue) : Raw.t :=
  Raw.mk VUndef v VUndef VUndef VUndef VUndef VUndef VUndef VUndef.
Definition patch_of_timeTaken (v : JsValue) : Raw.t :=
  Raw.mk VUndef VUndef VUndef v VUndef VUndef VUndef VUndef VUndef.

(** The task of the examples about patches and deletion. *)
Definition report : Task :=
  mkTask "t1" "Write report" (num_of_Z 100) (num_of_Z 7) High Todo ""
    "2024-05-01T09:00:00.000Z" None.

Definition patch_of_status (v : JsValue) : Raw.t :=
  Raw.mk VUndef VUndef VUndef VUndef VUndef v VUndef VUndef VUndef.


(** The time [Date.now()] reads in the examples. *)
Definition sample_now : Z := 1700000000000.

(** A well-formed raw record and the task [normalizeTasks] makes of it at
    index 0 under the sample runtime. *)
Definition call_raw : Raw.t :=
  Raw.mk (VStr "x1") (VStr " Call client ") (VNum (num_of_Z 50)) (VNum (Fin (5 # 2)))
    (VStr "High") (VStr "In Progress") VUndef VUndef VUndef.
Definition call_task : Task :=
  mkTask "x1" "Call client" (num_of_Z 50) (num_of_Z 3) High InProgress ""
    "@1699913600000" None.

(** A raw record that is not Done and carries a [completedAt], and the task
    [normalizeTasks] makes of it at index 0 under the sample runtime. *)
Definition stale_raw : Raw.t :=
  Raw.mk (VStr "x2") VUndef VUndef VUndef VUndef (VStr "Todo") VUndef VUndef
    (VStr "2024-01-01T00:00:00.000Z").

(** The result of [normalizeTasks] on the records with the supplied ids
    a-2, a and a under the sample runtime. *)
Definition collided : list Task :=
  [ mkTask "a-2" "Untitled Task" (num_of_Z 0) (num_of_Z 1) Low Todo "" "@1699913600000" None;
    mkTask "a" "Untitled Task" (num_of_Z 0) (num_of_Z 1) Low Todo "" "@1699827200000" None;
    mkTask "a-2" "Untitled Task" (num_of_Z 0) (num_of_Z 1) Low Todo "" "@1699740800000" None ].

(** A second pair of date functions for the examples, which prints a time
    value as a signed decimal number and reads it back. *)
Definition decimal_toISOString (ms : Z) : string :=
  NilEmpty.string_of_int (Z.to_int ms).
Definition decimal_Date_parse (s : string) : option Z :=
  Z.of_int <$> NilEmpty.int_of_string s.

(** A Done record without a [completedAt], created at the last time a
    [Date] can hold. *)
Definition last_day_raw : Raw.t :=
  Raw.mk VUndef VUndef VUndef VUndef VUndef (VStr "Done") VUndef
    (VNum (num_of_Z max_time)) VUndef.

(** The result of [normalizeTasks] on [null] and the empty record under the
    sample runtime, without [crypto]. *)
Definition blank_pair : list Task :=
  [ mkTask "task-1700000000000-0" "Untitled Task" (num_of_Z 0) (num_of_Z 1) Low Todo ""
      "@1699913600000" None;
    mkTask "task-1700000000000-1" "Untitled Task" (num_of_Z 0) (num_of_Z 1) Low Todo ""
      "@1699827200000" None ].

(** ** The hook [useTasks] *)

Section UseTasks.

(** The runtime: [Number(s)] on a string, [Date.parse] (the time value of
    [new Date(s)], [None] for an invalid date) and [toISOString] on a
    valid time value. *)
Variable StringToNumber : string → JNum.
Variable Date_parse : string → option Z.
Variable toISOString : Z → string.

(** [Number(v)], which is also the conversion [v <= 0] applies. *)
Definition ToNumber (v : JsValue) : JNum :=
  match v with
  | VUndef => NaN
  | VNull => num_of_Z 0
  | VBool b => num_of_Z (if b then 1 else 0)
  | VNum n => n
  | VStr s => StringToNumber s
  | VObj n _ => n
  end.

(** [new Date(v)] *)
Definition new_Date (v : JsValue) : option Z :=
  match v with
  | VUndef => None
  | VNull => Some 0
  | VBool b => Some (if b then 1 else 0)
  | VNum n => Date_of_num n
  | VStr s => Date_parse s
  | VObj _ d => d
  end.

(** [d.toISOString()]: throws a [RangeError] on an invalid date.  A
    computation that can throw returns an [option], [None] standing for
    the exception. *)
Definition Date_toISOString (d : option Z) : option string :=
  toISOString <$> d.

(** [Number.isFinite(tt) && tt > 0 ? Math.max(1, Math.round(tt)) : dflt] *)
Definition positive_time (tt : JNum) (dflt : JNum) : JNum :=
  if isFinite tt && num_gt0 tt
  then Math_max (num_of_Z 1) (Math_round_num tt)
  else dflt.

(** *** [normalizeTasks] *)

(** The id given to a record that supplies none.  [crypto] is
    [crypto.randomUUID] when the runtime has it: [uuid idx] is the value
    the call made for the record at [idx] returns. *)
Definition synthetic_id (crypto : option (nat → string)) (now : Z) (idx : nat) : string :=
  match crypto with
  | Some uuid => uuid idx
  | None => "task-" +:+ pretty now +:+ "-" +:+ pretty idx
  end.

(** The body of the loop, for the record [t] at index [idx]. *)
Definition normalizeRecord (now : Z) (crypto : option (nat → string))
    (idx : nat) (seen : gset string) (t : Raw.t) : option Task :=
  let id0 :=
    match trimmed_string (Raw.id t) with
    | Some s => s
    | None => synthetic_id crypto now idx
    end in
  let id1 :=
    if bool_decide (id0 ∈ seen) then id0 +:+ "-" +:+ pretty idx else id0 in
  let title1 := default "Untitled Task" (trimmed_string (Raw.title t)) in
  let revenue1 := ToNumber (Raw.revenue t) in
  let safeRevenue := if isFinite revenue1 then revenue1 else num_of_Z 0 in
  let tt := ToNumber (Raw.timeTaken t) in
  let timeTaken1 := positive_time tt (num_of_Z 1) in
  let priority1 := default Low (priority_of (Raw.priority t)) in
  let status1 := default Todo (status_of (Raw.status t)) in
  let notes1 := default "" (string_of (Raw.notes t)) in
  let fallback := TimeClip (now - (Z.of_nat idx + 1) * 24 * 3600 * 1000) in
  let created :=
    if truthy (Raw.createdAt t) then new_Date (Raw.createdAt t) else fallback in
  createdAt1 ←
    match created with
    | None => Date_toISOString fallback
    | Some _ => Date_toISOString created
    end;
  let completedAt0 := string_of (Raw.completedAt t) in
  completedAt1 ←
    (if falsy_string completedAt0 && is_Done status1
     then
       let c := Date_parse createdAt1 ≫= λ ms, TimeClip (ms + 24 * 3600 * 1000) in
       Some <$> Date_toISOString c
     else Some completedAt0);
  Some (mkTask id1 title1 safeRevenue timeTaken1 priority1 status1 notes1
          createdAt1 completedAt1).

(** The loop, from index [idx] on, with the ids [seen] and the tasks [out]
    pushed so far. *)
Fixpoint normalizeLoop (now : Z) (crypto : option (nat → string))
    (arr : list (option Raw.t)) (idx : nat) (seen : gset string)
    (out : list Task) : option (list Task) :=
  match arr with
  | [] => Some out
  | r :: rest =>
      task ← normalizeRecord now crypto idx seen (default Raw.empty r);
      normalizeLoop now crypto rest (S idx) ({[id task]} ∪ seen) (out ++ [task])
  end.

(** [input] is [None] when the argument is not an array; an element is
    [None] when it is [null] or [undefined] ([arr[idx] ?? {}]).  An element
    that is a number, a boolean or a string has none of the fields read
    here and is the record [Raw.empty].  [now] is a time value, so the
    arithmetic on it is exact. *)
Definition normalizeTasks (now : Z) (crypto : option (nat → string))
    (input : option (list (option Raw.t))) : option (list Task) :=
  normalizeLoop now crypto (default [] input) 0 ∅ [].

(** *** The store

    The hook keeps two pieces of state: the collection and the undo slot.
    Each operation below is the function the hook applies to the state
    committed by the operations before it. *)

Record Store : Type := mkStore {
  tasks : list Task;
  lastDeleted : option Task
}.

(** [{ ...t, field: x }] *)
Definition set_title (x : string) (t : Task) : Task :=
  mkTask (id t) x (revenue t) (timeTaken t) (priority t) (status t) (notes t)
    (createdAt t) (completedAt t).
Definition set_revenue (x : JNum) (t : Task) : Task :=
  mkTask (id t) (title t) x (timeTaken t) (priority t) (status t) (notes t)
    (createdAt t) (completedAt t).
Definition set_timeTaken (x : JNum) (t : Task) : Task :=
  mkTask (id t) (title t) (revenue t) x (priority t) (status t) (notes t)
    (createdAt t) (completedAt t).
Definition set_priority (x : Priority) (t : Task) : Task :=
  mkTask (id t) (title t) (revenue t) (timeTaken t) x (status t) (notes t)
    (createdAt t) (completedAt t).
Definition set_status (x : Status) (t : Task) : Task :=
  mkTask (id t) (title t) (revenue t) (timeTaken t) (priority t) x (notes t)
    (createdAt t) (completedAt t).
Definition set_notes (x : string) (t : Task) : Task :=
  mkTask (id t) (title t) (revenue t) (timeTaken t) (priority t) (status t) x
    (createdAt t) (completedAt t).
Definition set_completedAt (x : option string) (t : Task) : Task :=
  mkTask (id t) (title t) (revenue t) (timeTaken t) (priority t) (status t)
    (notes t) (createdAt t) x.

(** *** [addTask]: the updater handed to [setTasks].

    [now] is [Date.now()], [crypto] the value [crypto.randomUUID()] returns
    when the runtime has it, [clock] the time [new Date()] reads. *)
Definition addTask (now : Z) (crypto : option string) (clock : Z)
    (task : Raw.t) (prev : list Task) : list Task :=
  let id0 :=
    match trimmed_string (Raw.id task) with
    | Some s => s
    | None =>
        match crypto with
        | Some uuid => uuid
        | None => "task-" +:+ pretty now
        end
    end in
  let existingIds : gset string := list_to_set (id <$> prev) in
  let id1 :=
    if bool_decide (id0 ∈ existingIds)
    then id0 +:+ "-" +:+ pretty (length prev) else id0 in
  let title1 := default "Untitled Task" (trimmed_string (Raw.title task)) in
  let revenue1 := ToNumber (Raw.revenue task) in
  let safeRevenue := if isFinite revenue1 then revenue1 else num_of_Z 0 in
  let tt := ToNumber (Raw.timeTaken task) in
  let timeTaken1 := positive_time tt (num_of_Z 1) in
  let priority1 := default Low (priority_of (Raw.priority task)) in
  let status1 := default Todo (status_of (Raw.status task)) in
  let notes1 := default "" (string_of (Raw.notes task)) in
  let createdAt1 := toISOString clock in
  let completedAt1 := if is_Done status1 then Some createdAt1 else None in
  prev ++ [mkTask id1 title1 safeRevenue timeTaken1 priority1 status1 notes1
             createdAt1 completedAt1].

(** *** [updateTask] *)

(** The statements of the first [map]'s callback, one definition for each,
    applied to [merged] in the order of the source. *)

(** [if (patch.title !== undefined) merged.title = ...] *)
Definition patch_title (patch : Raw.t) (merged : Task) : Task :=
  if is_undefined (Raw.title patch) then merged
  else set_title (default "Untitled Task" (trimmed_string (Raw.title patch))) merged.

(** [if (patch.revenue !== undefined) { ... }] *)
Definition patch_revenue (patch : Raw.t) (merged : Task) : Task :=
  if is_undefined (Raw.revenue patch) then merged
  else
    let r := ToNumber (Raw.revenue patch) in
    set_revenue (if isFinite r then r else revenue merged) merged.

(** [if (patch.timeTaken !== undefined) { ... }] *)
Definition patch_timeTaken (patch : Raw.t) (merged : Task) : Task :=
  if is_undefined (Raw.timeTaken patch) then merged
  else
    let tt := ToNumber (Raw.timeTaken patch) in
    set_timeTaken (positive_time tt (timeTaken merged)) merged.

(** [if (patch.priority !== undefined) merged.priority = ...] *)
Definition patch_priority (patch : Raw.t) (merged : Task) : Task :=
  if is_undefined (Raw.priority patch) then merged
  else set_priority (default (priority merged) (priority_of (Raw.priority patch))) merged.

(** [if (patch.status !== undefined) merged.status = ...] *)
Definition patch_status (patch : Raw.t) (merged : Task) : Task :=
  if is_undefined (Raw.status patch) then merged
  else set_status (default (status merged) (status_of (Raw.status patch))) merged.

(** [if (patch.notes !== undefined) merged.notes = ...] *)
Definition patch_notes (patch : Raw.t) (merged : Task) : Task :=
  if is_undefined (Raw.notes patch) then merged
  else set_notes (default (notes merged) (string_of (Raw.notes patch))) merged.

(** [if (t.status !== 'Done' && merged.status === 'Done' && !merged.completedAt)] *)
Definition stamp_completedAt (clock : Z) (t merged : Task) : Task :=
  if negb (is_Done (status t)) && is_Done (status merged)
     && falsy_string (completedAt merged)
  then set_completedAt (Some (toISOString clock)) merged else merged.

(** [if (t.status === 'Done' && merged.status !== 'Done')] *)
Definition clear_completedAt (t merged : Task) : Task :=
  if is_Done (status t) && negb (is_Done (status merged))
  then set_completedAt None merged else merged.

(** The first [map]'s result for the task with the target id. *)
Definition patchTask (clock : Z) (patch : Raw.t) (t : Task) : Task :=
  let merged := t in
  let merged := patch_title patch merged in
  let merged := patch_revenue patch merged in
  let merged := patch_timeTaken patch merged in
  let merged := patch_priority patch merged in
  let merged := patch_status patch merged in
  let merged := patch_notes patch merged in
  let merged := stamp_completedAt clock t merged in
  let merged := clear_completedAt t merged in
  merged.

(** [(patch.timeTaken ?? t.timeTaken) <= 0] *)
Definition time_check (patch : Raw.t) (t : Task) : bool :=
  num_le0 (ToNumber (if is_nullish (Raw.timeTaken patch)
                     then VNum (timeTaken t) else Raw.timeTaken patch)).

(** The updater handed to [setTasks].  [clock k] is the time [new Date()]
    reads while the task at position [k] is patched. *)
Definition updateTask (clock : nat → Z) (i : string) (patch : Raw.t)
    (prev : list Task) : list Task :=
  let next :=
    imap (λ k t, if bool_decide (id t ≠ i) then t else patchTask (clock k) patch t)
      prev in
  (λ t, if bool_decide (id t = i) && time_check patch t
        then set_timeTaken (num_of_Z 1) t else t) <$> next.

(** *** [deleteTask], [undoDelete], [clearLastDeleted] *)

Definition deleteTask (i : string) (s : Store) : Store :=
  let prev := tasks s in
  let target := List.find (λ t, bool_decide (id t = i)) prev in
  mkStore (filter (λ t, id t ≠ i) prev) target.

(** [useCallback] builds [undoDelete] anew whenever [lastDeleted] has
    changed, so the function a render hands out reads the slot of that
    render, [held], both in its test and in the updater it passes to
    [setTasks]; the updater receives the latest collection.  [s] is the
    state the call finds: that of the render, followed by the updates of the
    calls made since. *)
Definition undoDelete (held : option Task) (s : Store) : Store :=
  match held with
  | None => s
  | Some t => mkStore (tasks s ++ [t]) None
  end.

Definition clearLastDeleted (s : Store) : Store :=
  mkStore (tasks s) None.

(** *** The store as a state machine *)

Inductive Op : Type :=
  | OpAdd (now : Z) (crypto : option string) (clock : Z) (task : Raw.t)
  | OpUpdate (clock : nat → Z) (i : string) (patch : Raw.t)
  | OpDelete (i : string)
  | OpUndo
  | OpClear.

(** One call of a function that the render of the state [render] handed
    out, made when the state has become [s].  Only [undoDelete] reads its
    render: the other functions do all their work in updaters, or store a
    constant.  The updates that the calls of one render queue are applied
    in the order of the calls.  (React can run the updater of [deleteTask]
    after a later [undoDelete] of the same render has stored null: the
    collection is the same, and the slot then keeps what [deleteTask] has
    put there.  No theorem below depends on which of the two it is, and
    [reachable] covers both.) *)
Definition step_from (render s : Store) (op : Op) : Store :=
  match op with
  | OpAdd now crypto clock task =>
      mkStore (addTask now crypto clock task (tasks s)) (lastDeleted s)
  | OpUpdate clock i patch =>
      mkStore (updateTask clock i patch (tasks s)) (lastDeleted s)
  | OpDelete i => deleteTask i s
  | OpUndo => undoDelete (lastDeleted render) s
  | OpClear => clearLastDeleted s
  end.

(** A call made once the hook has rendered [s]: the function called is the
    one of the render of [s] itself. *)
Definition step (s : Store) (op : Op) : Store := step_from s s op.

(** A sequence of calls with a render after each. *)
Definition run (s : Store) (ops : list Op) : Store := foldl step s ops.

(** The state before the initial load. *)
Definition initial : Store := mkStore [] None.

(** *** Properties stated by the claims *)

(** [timeTaken] is an integer at or above 1. *)
Definition time_ok (n : JNum) : bool :=
  match n with
  | Fin q => (1 <=? Qnum q) && Pos.eqb (Qden q) 1
  | _ => false
  end.

(** [completedAt] is present exactly when the status is Done. *)
Definition completed_iff_done (t : Task) : Prop :=
  is_Some (completedAt t) ↔ status t = Done.

(** The stores the hook can be in: the empty collection it starts with or
    the result of [normalizeTasks] it loads, followed by any operations,
    each called through the functions of the latest render or of an earlier
    one ([reach_step]), the slot holding the value of the last write or
    that of an earlier one ([reach_slot]).  (When the result of
    [normalizeTasks] is empty the hook loads generated seed data instead;
    the generator, [utils/seed.ts], is not part of this development.) *)
Inductive reachable : Store → Prop :=
  | reach_initial : reachable initial
  | reach_load now crypto input out :
      normalizeTasks now crypto input = Some out →
      reachable (mkStore out None)
  | reach_step render s op :
      reachable render → reachable s → reachable (step_from render s op)
  | reach_slot s earlier :
      reachable s → reachable earlier →
      reachable (mkStore (tasks s) (lastDeleted earlier)).

(** Every stored [timeTaken], the undo slot included, is an integer at or
    above 1. *)
Definition store_time_ok (s : Store) : Prop :=
  (∀ t, t ∈ tasks s → time_ok (timeTaken t) = true)
  ∧ (∀ t, lastDeleted s = Some t → time_ok (timeTaken t) = true).

(** The status [patchTask] leaves. *)
Definition patched_status (patch : Raw.t) (t : Task) : Status :=
  if is_undefined (Raw.status patch) then status t
  else default (status t) (status_of (Raw.status patch)).

(** The task [updateTask] leaves at position [k] in place of [t]. *)
Definition updated (clock : nat → Z) (i : string) (patch : Raw.t)
    (k : nat) (t : Task) : Task :=
  let t1 := if bool_decide (id t ≠ i) then t else patchTask (clock k) patch t in
  if bool_decide (id t1 = i) && time_check patch t1
  then set_timeTaken (num_of_Z 1) t1 else t1.

(** *** The initial load

    The effect of the hook calls [load] once for each mount.  The call runs
    up to [await fetch(...)] at once; what follows the awaits runs later, in
    one piece, when the response is there.  [load_start] is the first part
    and [load_finish] the second; [mounted] is the value [isMounted] has
    when the second part runs. *)

(** The generator of [utils/seed.ts], which is not among the sources, and
    the [message] of the [RangeError] that [toISOString] throws. *)
Variable generateSalesTasks : nat → list Task.
Variable RangeError_message : string.

(** What [fetch] and [res.json()] come to: [fetch] rejects with a value
    whose [message] is given (if it has one), the response is not [ok],
    [res.json()] rejects, or it resolves to a value ([None] when that value
    is not an array). *)
Inductive Fetched : Type :=
  | FetchRejected (message : option string)
  | NotOk (status : Z)
  | BadBody (message : option string)
  | Body (data : option (list (option Raw.t))).

(** The state of one instance of the hook. *)
Record Hook : Type := mkHook {
  store : Store;
  loading : bool;
  error : option string;
  fetchedRef : bool
}.

(** The state [useState] and [useRef] start with. *)
Definition mount : Hook := mkHook initial true None false.

(** The part of [load] before the first [await], given the module-level
    [hasLoadedTasksOnce]: the new value of that flag, whether a fetch is
    now pending, and the state. *)
Definition load_start (hasLoadedTasksOnce : bool) (h : Hook) : bool * bool * Hook :=
  if hasLoadedTasksOnce
  then (true, false, mkHook (store h) false (error h) true)
  else (true, true, h).

(** What the [try] block comes to: the message of the value caught, or
    [finalData]. *)
Definition load_outcome (now : Z) (crypto : option (nat → string))
    (resp : Fetched) : string + list Task :=
  match resp with
  | FetchRejected message => inl (default "Failed to load tasks" message)
  | NotOk status => inl ("Failed to load tasks.json (" +:+ pretty status +:+ ")")
  | BadBody message => inl (default "Failed to load tasks" message)
  | Body data =>
      match normalizeTasks now crypto data with
      | None => inl RangeError_message
      | Some normalized =>
          inr (if (0 <? length normalized)%nat then normalized
               else generateSalesTasks 50)
      end
  end.

(** The part of [load] after the awaits. *)
Definition load_finish (mounted : bool) (now : Z) (crypto : option (nat → string))
    (resp : Fetched) (h : Hook) : Hook :=
  if mounted then
    match load_outcome now crypto resp with
    | inr finalData =>
        mkHook (mkStore finalData (lastDeleted (store h))) false (error h) true
    | inl message => mkHook (store h) false (Some message) true
    end
  else h.

(** [n] calls of [load], one after the other (one for each mount), each
    run up to its first [await]: the flag, the number of fetches started
    and the state after them. *)
Fixpoint load_starts (hasLoadedTasksOnce : bool) (h : Hook) (n : nat) : bool * nat * Hook :=
  match n with
  | O => (hasLoadedTasksOnce, O, h)
  | S n' =>
      let '(flag, pending, h') := load_start hasLoadedTasksOnce h in
      let '(flag', fetches, h'') := load_starts flag h' n' in
      (flag', ((if pending then 1 else 0) + fetches)%nat, h'')
  end.

(** *** Further properties of stored tasks *)

(** The title is not empty and has no white space at either end. *)
Definition title_ok (t : Task) : Prop := title t ≠ "" ∧ trim (title t) = title t.

(** [P] holds of every task of the collection and of the task in the undo
    slot. *)
Definition store_all (P : Task → Prop) (s : Store) : Prop :=
  (∀ t, t ∈ tasks s → P t) ∧ (∀ t, lastDeleted s = Some t → P t).

(** The operations that call [setTasks] only. *)
Definition keeps_slot (op : Op) : bool :=
  match op with
  | OpAdd _ _ _ _ | OpUpdate _ _ _ => true
  | _ => false
  end.

(** The id [normalizeTasks] starts from for the element [r] at [idx]: the
    trimmed id it supplies, or the synthetic one. *)
Definition base_id (now : Z) (crypto : option (nat → string)) (idx : nat)
    (r : option Raw.t) : string :=
  default (synthetic_id crypto now idx) (trimmed_string (Raw.id (default Raw.empty r))).

(** A patch without the fields [updateTask] does not read. *)
Definition read_fields (patch : Raw.t) : Raw.t :=
  Raw.mk VUndef (Raw.title patch) (Raw.revenue patch) (Raw.timeTaken patch)
    (Raw.priority patch) (Raw.status patch) (Raw.notes patch) VUndef VUndef.

(** *** What one round of the loop of [normalizeTasks] computes *)

Lemma normalizeRecord_inv now crypto idx seen t task :
  normalizeRecord now crypto idx seen t = Some task →
  let id0 := default (synthetic_id crypto now idx) (trimmed_string (Raw.id t)) in
  id task = (if bool_decide (id0 ∈ seen) then id0 +:+ "-" +:+ pretty idx else id0)
  ∧ title task = default "Untitled Task" (trimmed_string (Raw.title t))
  ∧ revenue task =
      (if isFinite (ToNumber (Raw.revenue t)) then ToNumber (Raw.revenue t)
       else num_of_Z 0)
  ∧ timeTaken task = positive_time (ToNumber (Raw.timeTaken t)) (num_of_Z 1)
  ∧ priority task = default Low (priority_of (Raw.priority t))
  ∧ status task = default Todo (status_of (Raw.status t))
  ∧ notes task = default "" (string_of (Raw.notes t))
  ∧ (is_Some (completedAt task) ↔
     status task = Done ∨ is_Some (string_of (Raw.completedAt t))).
Proof.
  unfold normalizeRecord. intros H.
  apply bind_Some in H as (created & _ & H).
  apply bind_Some in H as (completed & Hc & H).
  injection H as <-. cbn.
  repeat split; try (by destruct (trimmed_string (Raw.id t))).
  - intros Hsome.
    destruct (string_of (Raw.completedAt t)) as [c|] eqn:Hs; [right; eauto|].
    left. cbn in Hc.
    destruct (default Todo (status_of (Raw.status t))); try done;
      cbn in Hc; injection Hc as <-; by destruct Hsome.
  - intros [Hd | Hs].
    + rewrite Hd in Hc.
      destruct (falsy_string (string_of (Raw.completedAt t))) eqn:Hf; cbn in Hc.
      * apply fmap_Some in Hc as (c & _ & ->). eauto.
      * injection Hc as <-. unfold falsy_string in Hf.
        destruct (string_of (Raw.completedAt t)); [eauto | done].
    + destruct Hs as [c Hs]. rewrite Hs in Hc.
      destruct (falsy_string (Some c) && is_Done (default Todo (status_of (Raw.status t)))); cbn in Hc.
      * apply fmap_Some in Hc as (c' & _ & ->). eauto.
      * injection Hc as <-. eauto.
Qed.

Lemma normalizeLoop_inv now crypto arr : ∀ idx seen out0 out,
  normalizeLoop now crypto arr idx seen out0 = Some out →
  ∃ new, out = out0 ++ new ∧ length new = length arr ∧
    ∀ k r, arr !! k = Some r →
      ∃ seen' task,
        normalizeRecord now crypto (idx + k) seen' (default Raw.empty r) = Some task
        ∧ new !! k = Some task.
Proof.
  induction arr as [|r0 rest IH]; intros idx seen out0 out H; cbn in H.
  - injection H as <-. exists []. rewrite app_nil_r. split_and!; [done..|].
    intros k r Hk. by rewrite lookup_nil in Hk.
  - apply bind_Some in H as (task & Hrec & H).
    apply IH in H as (new & -> & Hlen & Hall).
    exists (task :: new). rewrite <- app_assoc. cbn. split_and!; [done|by f_equal|].
    intros [|k] r Hk; cbn in Hk.
    + injection Hk as <-. exists seen, task. by rewrite Nat.add_0_r.
    + apply Hall in Hk as (seen' & task' & Hrec' & Hnew).
      exists seen', task'. split; [|done].
      by replace (idx + S k)%nat with (S idx + k)%nat by lia.
Qed.

Lemma normalizeTasks_inv now crypto input out :
  normalizeTasks now crypto input = Some out →
  length out = length (default [] input) ∧
  ∀ k r, default [] input !! k = Some r →
    ∃ seen task,
      normalizeRecord now crypto k seen (default Raw.empty r) = Some task
      ∧ out !! k = Some task.
Proof.
  unfold normalizeTasks. intros H.
  apply normalizeLoop_inv in H as (new & -> & Hlen & Hall).
  split; [done|]. intros k r Hk. by apply Hall in Hk.
Qed.

(** *** Enumerations *)






(** *** [timeTaken] *)

(** [Math.round] picks the nearest integer, the upper one on a tie. *)
Lemma Math_round_nearest q :
  (inject_Z (Math_round q) - (1 # 2) <= q)%Q
  ∧ (q < inject_Z (Math_round q) + (1 # 2))%Q.
Proof.
  unfold Math_round.
  pose proof (Qfloor_le (q + (1 # 2))) as Hle.
  pose proof (Qlt_floor (q + (1 # 2))) as Hlt.
  rewrite inject_Z_plus in Hlt. split.
  - apply Qplus_le_l with (z := 1 # 2). ring_simplify.
    ring_simplify in Hle. exact Hle.
  - apply Qplus_lt_l with (z := 1 # 2).
    eapply Qlt_le_trans; [exact Hlt|]. apply Qle_lteq. right. ring.
Qed.

Lemma Math_max_Z a b :
  Math_max (num_of_Z a) (num_of_Z b) = num_of_Z (Z.max a b).
Proof.
  unfold Math_max, num_of_Z, inject_Z.
  destruct (Qle_bool (a # 1) (b # 1)) eqn:H.
  - apply Qle_bool_iff in H. unfold Qle in H. cbn in H.
    f_equal. f_equal. lia.
  - f_equal. f_equal.
    destruct (Z.max_spec a b) as [[Hlt ->]|[_ ->]]; [|done].
    assert (Qle_bool (a # 1) (b # 1) = true); [|congruence].
    apply Qle_bool_iff. unfold Qle. cbn. lia.
Qed.

Lemma positive_time_valid q dflt :
  (0 < q)%Q →
  positive_time (Fin q) dflt = num_of_Z (Z.max 1 (Math_round q)).
Proof.
  intros Hq. unfold positive_time. cbn.
  destruct (Qle_bool q 0) eqn:H.
  - apply Qle_bool_iff in H. by apply Qle_not_lt in H.
  - cbn. apply Math_max_Z.
Qed.

Lemma positive_time_invalid tt dflt :
  isFinite tt && num_gt0 tt = false → positive_time tt dflt = dflt.
Proof. unfold positive_time. by intros ->. Qed.

Lemma time_ok_num_of_Z z : 1 ≤ z → time_ok (num_of_Z z) = true.
Proof. intros H. cbn. apply andb_true_intro. split; [by apply Z.leb_le|done]. Qed.

Lemma positive_time_ok tt dflt :
  time_ok dflt = true → time_ok (positive_time tt dflt) = true.
Proof.
  intros Hd. unfold positive_time.
  destruct (isFinite tt && num_gt0 tt) eqn:H; [|done].
  destruct tt as [| | |q]; try done. unfold Math_round_num.
  rewrite Math_max_Z. apply time_ok_num_of_Z. lia.
Qed.

(** *** What [addTask] appends and what [updateTask] does to one task *)

Lemma addTask_inv now crypto clock task prev :
  ∃ t,
    addTask now crypto clock task prev = prev ++ [t]
    ∧ timeTaken t = positive_time (ToNumber (Raw.timeTaken task)) (num_of_Z 1)
    ∧ status t = default Todo (status_of (Raw.status task))
    ∧ completedAt t = (if is_Done (status t) then Some (createdAt t) else None).
Proof. unfold addTask. eexists. split; [reflexivity|]. by cbn. Qed.

Lemma patch_fields_eq patch t :
  patch_notes patch (patch_status patch (patch_priority patch
    (patch_timeTaken patch (patch_revenue patch (patch_title patch t))))) =
    mkTask (id t)
      (if is_undefined (Raw.title patch) then title t
       else default "Untitled Task" (trimmed_string (Raw.title patch)))
      (if is_undefined (Raw.revenue patch) then revenue t
       else if isFinite (ToNumber (Raw.revenue patch))
            then ToNumber (Raw.revenue patch) else revenue t)
      (if is_undefined (Raw.timeTaken patch) then timeTaken t
       else positive_time (ToNumber (Raw.timeTaken patch)) (timeTaken t))
      (if is_undefined (Raw.priority patch) then priority t
       else default (priority t) (priority_of (Raw.priority patch)))
      (patched_status patch t)
      (if is_undefined (Raw.notes patch) then notes t
       else default (notes t) (string_of (Raw.notes patch)))
      (createdAt t)
      (completedAt t).
Proof.
  destruct t as [i ti r tt p st n ca co].
  unfold patched_status, patch_title, patch_revenue, patch_timeTaken,
    patch_priority, patch_status, patch_notes.
  destruct (is_undefined (Raw.title patch));
  destruct (is_undefined (Raw.revenue patch));
  destruct (is_undefined (Raw.timeTaken patch));
  destruct (is_undefined (Raw.priority patch));
  destruct (is_undefined (Raw.status patch));
  destruct (is_undefined (Raw.notes patch)); reflexivity.
Qed.

Lemma patchTask_eq clock patch t :
  patchTask clock patch t =
    mkTask (id t)
      (if is_undefined (Raw.title patch) then title t
       else default "Untitled Task" (trimmed_string (Raw.title patch)))
      (if is_undefined (Raw.revenue patch) then revenue t
       else if isFinite (ToNumber (Raw.revenue patch))
            then ToNumber (Raw.revenue patch) else revenue t)
      (if is_undefined (Raw.timeTaken patch) then timeTaken t
       else positive_time (ToNumber (Raw.timeTaken patch)) (timeTaken t))
      (if is_undefined (Raw.priority patch) then priority t
       else default (priority t) (priority_of (Raw.priority patch)))
      (patched_status patch t)
      (if is_undefined (Raw.notes patch) then notes t
       else default (notes t) (string_of (Raw.notes patch)))
      (createdAt t)
      (if is_Done (status t) && negb (is_Done (patched_status patch t)) then None
       else if negb (is_Done (status t)) && is_Done (patched_status patch t)
               && falsy_string (completedAt t)
            then Some (toISOString clock)
            else completedAt t).
Proof.
  unfold patchTask. cbn zeta. rewrite patch_fields_eq.
  unfold stamp_completedAt, clear_completedAt.
  cbn [id title revenue timeTaken priority status notes createdAt completedAt].
  destruct (is_Done (status t)), (is_Done (patched_status patch t)) eqn:E,
    (falsy_string (completedAt t)); cbn; rewrite ?E; reflexivity.
Qed.

Lemma patchTask_id clock patch t : id (patchTask clock patch t) = id t.
Proof. by rewrite patchTask_eq. Qed.

Lemma updateTask_lookup clock i patch prev k :
  updateTask clock i patch prev !! k = updated clock i patch k <$> prev !! k.
Proof.
  unfold updateTask. rewrite list_lookup_fmap, list_lookup_imap.
  by destruct (prev !! k).
Qed.

Lemma updated_other clock i patch k t : id t ≠ i → updated clock i patch k t = t.
Proof.
  intros H. unfold updated.
  rewrite (bool_decide_eq_true_2 _ H). by rewrite (bool_decide_eq_false_2 _ H).
Qed.

Lemma updated_id clock i patch k t : id (updated clock i patch k t) = id t.
Proof.
  unfold updated.
  set (t1 := if bool_decide (id t ≠ i) then t else patchTask (clock k) patch t).
  assert (id t1 = id t) as H1.
  { unfold t1. destruct (bool_decide (id t ≠ i)); [done|apply patchTask_id]. }
  by destruct (_ && _).
Qed.

(** *** When the loop of [normalizeTasks] returns *)

Lemma TimeClip_Some ms : - max_time ≤ ms ≤ max_time → TimeClip ms = Some ms.
Proof.
  intros H. unfold TimeClip. destruct (Z.leb_spec (Z.abs ms) max_time); [done|lia].
Qed.

Lemma TimeClip_None ms : max_time < ms → TimeClip ms = None.
Proof.
  intros H. unfold TimeClip. destruct (Z.leb_spec (Z.abs ms) max_time); [lia|done].
Qed.

Lemma normalizeRecord_returns now crypto idx seen r :
  (∀ ms, - max_time ≤ ms ≤ max_time → Date_parse (toISOString ms) = Some ms) →
  0 ≤ now ≤ max_time →
  (Z.of_nat idx + 1) * (24 * 3600 * 1000) ≤ max_time →
  (∀ ms, truthy (Raw.createdAt r) = true → new_Date (Raw.createdAt r) = Some ms →
         - max_time ≤ ms ≤ max_time - 24 * 3600 * 1000) →
  is_Some (normalizeRecord now crypto idx seen r).
Proof.
  intros Hrt Hnow Hidx Hdate. unfold normalizeRecord.
  set (f := now - (Z.of_nat idx + 1) * 24 * 3600 * 1000).
  assert (- max_time ≤ f ≤ max_time - 24 * 3600 * 1000) as Hf by (unfold f; lia).
  rewrite (TimeClip_Some f) by lia.
  assert (∃ d, - max_time ≤ d ≤ max_time - 24 * 3600 * 1000 ∧
               match (if truthy (Raw.createdAt r) then new_Date (Raw.createdAt r)
                      else Some f) with
               | Some _ => Date_toISOString
                             (if truthy (Raw.createdAt r) then new_Date (Raw.createdAt r)
                              else Some f)
               | None => Date_toISOString (Some f)
               end = Some (toISOString d)) as (d & Hd & Hc).
  { destruct (truthy (Raw.createdAt r)) eqn:Ht.
    - destruct (new_Date (Raw.createdAt r)) as [ms|] eqn:Hn.
      + exists ms. split; [by apply Hdate|done].
      + by exists f.
    - by exists f. }
  rewrite Hc. cbn.
  destruct (falsy_string (string_of (Raw.completedAt r)) &&
            is_Done (default Todo (status_of (Raw.status r)))); cbn; [|by eexists].
  rewrite Hrt by lia. cbn. rewrite TimeClip_Some by lia. cbn. by eexists.
Qed.

Lemma normalizeLoop_returns now crypto arr : ∀ idx seen out0,
  (∀ ms, - max_time ≤ ms ≤ max_time → Date_parse (toISOString ms) = Some ms) →
  0 ≤ now ≤ max_time →
  (Z.of_nat idx + Z.of_nat (length arr)) * (24 * 3600 * 1000) ≤ max_time →
  (∀ r ms, r ∈ arr →
     truthy (Raw.createdAt (default Raw.empty r)) = true →
     new_Date (Raw.createdAt (default Raw.empty r)) = Some ms →
     - max_time ≤ ms ≤ max_time - 24 * 3600 * 1000) →
  is_Some (normalizeLoop now crypto arr idx seen out0).
Proof.
  induction arr as [|r rest IH]; intros idx seen out0 Hrt Hnow Hidx Hdate; [by eexists|].
  cbn [normalizeLoop]. cbn [length] in Hidx.
  destruct (normalizeRecord_returns now crypto idx seen (default Raw.empty r))
    as [task Htask]; [done|done|lia| |].
  { intros ms. apply Hdate. constructor. }
  rewrite Htask. cbn. apply IH; [done|done|lia|].
  intros r' ms Hin. apply Hdate. by constructor.
Qed.

(** *** Every stored [timeTaken] is an integer at or above 1 *)

Lemma normalizeTasks_timeTaken now crypto input out k r t :
  normalizeTasks now crypto input = Some out →
  default [] input !! k = Some r →
  out !! k = Some t →
  timeTaken t =
    positive_time (ToNumber (Raw.timeTaken (default Raw.empty r))) (num_of_Z 1).
Proof.
  intros Hn Hk Ht.
  apply normalizeTasks_inv in Hn as [_ Hall].
  destruct (Hall k r Hk) as (seen & task & Hrec & Hout).
  assert (task = t) as -> by congruence.
  by apply normalizeRecord_inv in Hrec as (_ & _ & _ & Htt & _).
Qed.

Lemma normalizeTasks_time_ok now crypto input out t :
  normalizeTasks now crypto input = Some out →
  t ∈ out → time_ok (timeTaken t) = true.
Proof.
  intros Hn Ht. apply list_elem_of_lookup in Ht as [k Hk].
  pose proof Hn as [Hlen _]%normalizeTasks_inv.
  destruct (default [] input !! k) as [r|] eqn:Hr.
  - rewrite (normalizeTasks_timeTaken _ _ _ _ _ _ _ Hn Hr Hk).
    by apply positive_time_ok.
  - apply lookup_ge_None in Hr. apply lookup_lt_Some in Hk. lia.
Qed.

Lemma updated_time_ok clock i patch k t :
  time_ok (timeTaken t) = true →
  time_ok (timeTaken (updated clock i patch k t)) = true.
Proof.
  intros Ht. unfold updated.
  set (t1 := if bool_decide (id t ≠ i) then t else patchTask (clock k) patch t).
  assert (time_ok (timeTaken t1) = true) as H1.
  { unfold t1. destruct (bool_decide (id t ≠ i)); [done|].
    rewrite patchTask_eq. cbn.
    destruct (is_undefined (Raw.timeTaken patch)); [done|].
    by apply positive_time_ok. }
  by destruct (_ && _).
Qed.

Lemma step_from_time_ok render s op :
  store_time_ok render → store_time_ok s → store_time_ok (step_from render s op).
Proof.
  intros [_ Hr] [Ht Hd]. unfold store_time_ok.
  destruct op as [now crypto clock task|clock i patch|i| |];
    unfold step_from, deleteTask, clearLastDeleted; cbn [tasks lastDeleted].
  - destruct (addTask_inv now crypto clock task (tasks s)) as (t & -> & Htt & _).
    split; [|done]. intros t' [Hin| ->%list_elem_of_singleton]%elem_of_app; [by apply Ht|].
    rewrite Htt. by apply positive_time_ok.
  - split; [|done]. intros t' [k Hk]%list_elem_of_lookup.
    rewrite updateTask_lookup in Hk.
    apply fmap_Some in Hk as (t & Hk & ->).
    apply updated_time_ok, Ht. by eapply list_elem_of_lookup_2.
  - split.
    + intros t [_ Hin]%list_elem_of_filter. by apply Ht.
    + intros t [Hin _]%find_some. by apply Ht, list_elem_of_In.
  - unfold undoDelete. destruct (lastDeleted render) as [d|] eqn:Hs;
      [|split; [exact Ht|exact Hd]].
    split; [|done]. cbn.
    intros t [Hin| ->%list_elem_of_singleton]%elem_of_app; [by apply Ht|by apply Hr].
  - split; [exact Ht|done].
Qed.

Lemma reachable_time_ok s : reachable s → store_time_ok s.
Proof.
  induction 1 as [|now crypto input out Hn|render s op _ IHr _ IHs
                  |s earlier _ IHs _ IHe].
  - split; cbn; [intros t Ht; by apply elem_of_nil in Ht|done].
  - split; cbn; [|done]. intros t. by eapply normalizeTasks_time_ok.
  - by apply step_from_time_ok.
  - split; [apply IHs|apply IHe].
Qed.

(** C7.  Normalizing a raw [timeTaken] gives 1 when the number it converts
    to is not finite or not above 0, and otherwise the nearest integer (a
    tie rounds up) floored at 1.  [normalizeTasks], when it returns, has a
    task for every element of the batch, with that value of the [timeTaken]
    of the element, and it does return for the batches whose dates are in
    range; [addTask] appends a task with that value.  Every task of every
    reachable store (the undo slot included) has an integer [timeTaken] at
    or above 1. *)
Theorem timeTaken_normalization :
  (∀ v, isFinite (ToNumber v) && num_gt0 (ToNumber v) = false →
        positive_time (ToNumber v) (num_of_Z 1) = num_of_Z 1)
  ∧ (∀ v q, ToNumber v = Fin q → (0 < q)%Q →
        positive_time (ToNumber v) (num_of_Z 1) = num_of_Z (Z.max 1 (Math_round q))
        ∧ (inject_Z (Math_round q) - (1 # 2) <= q)%Q
        ∧ (q < inject_Z (Math_round q) + (1 # 2))%Q)
  ∧ (∀ now crypto input out,
        normalizeTasks now crypto input = Some out →
        length out = length (default [] input)
        ∧ ∀ k r, default [] input !! k = Some r →
            ∃ t, out !! k = Some t
              ∧ timeTaken t =
                  positive_time (ToNumber (Raw.timeTaken (default Raw.empty r)))
                    (num_of_Z 1))
  ∧ (∀ now crypto input,
        (∀ ms, - max_time ≤ ms ≤ max_time → Date_parse (toISOString ms) = Some ms) →
        0 ≤ now ≤ max_time →
        Z.of_nat (length input) * (24 * 3600 * 1000) ≤ max_time →
        (∀ r ms, r ∈ input →
           truthy (Raw.createdAt (default Raw.empty r)) = true →
           new_Date (Raw.createdAt (default Raw.empty r)) = Some ms →
           - max_time ≤ ms ≤ max_time - 24 * 3600 * 1000) →
        ∃ out, normalizeTasks now crypto (Some input) = Some out
          ∧ ∀ k r, input !! k = Some r →
              ∃ t, out !! k = Some t
                ∧ timeTaken t =
                    positive_time (ToNumber (Raw.timeTaken (default Raw.empty r)))
                      (num_of_Z 1))
  ∧ (∀ now crypto clock task prev, ∃ t,
        addTask now crypto clock task prev = prev ++ [t]
        ∧ timeTaken t = positive_time (ToNumber (Raw.timeTaken task)) (num_of_Z 1))
  ∧ (∀ s, reachable s →
        (∀ t, t ∈ tasks s → time_ok (timeTaken t) = true)
        ∧ (∀ t, lastDeleted s = Some t → time_ok (timeTaken t) = true)).
Proof.
  assert (∀ now crypto input out,
    normalizeTasks now crypto input = Some out →
    ∀ k r, default [] input !! k = Some r →
      ∃ t, out !! k = Some t
        ∧ timeTaken t =
            positive_time (ToNumber (Raw.timeTaken (default Raw.empty r)))
              (num_of_Z 1)) as Hnorm.
  { intros now crypto input out Hn k r Hk.
    pose proof Hn as [_ Hall]%normalizeTasks_inv.
    destruct (Hall k r Hk) as (seen & task & _ & Hout).
    exists task. split; [done|]. by eapply normalizeTasks_timeTaken. }
  split_and!.
  - intros v H. by apply positive_time_invalid.
  - intros v q -> Hq. split; [by apply positive_time_valid|].
    apply Math_round_nearest.
  - intros now crypto input out Hn. split; [|by eapply Hnorm].
    by apply normalizeTasks_inv in Hn as [Hl _].
  - intros now crypto input Hrt Hnow Hlen Hdate.
    destruct (normalizeLoop_returns now crypto input 0%nat ∅ [] Hrt Hnow) as [out Hout];
      [lia|done|].
    change (normalizeTasks now crypto (Some input) = Some out) in Hout.
    exists out. split; [exact Hout|]. by apply (Hnorm _ _ _ _ Hout).
  - intros now crypto clock task prev.
    destruct (addTask_inv now crypto clock task prev) as (t & H1 & H2 & _).
    by exists t.
  - apply reachable_time_ok.
Qed.

(** *** [completedAt] and the status *)

Lemma falsy_None_or_Some c : falsy_string c = false → is_Some c.
Proof. destruct c; [eauto|done]. Qed.

Lemma updated_status clock i patch k t :
  status (updated clock i patch k t) =
    if bool_decide (id t ≠ i) then status t else patched_status patch t.
Proof.
  unfold updated.
  destruct (bool_decide (id t ≠ i)).
  - by destruct (_ && _).
  - destruct (_ && _); cbn; by rewrite patchTask_eq.
Qed.

Lemma updated_completedAt clock i patch k t :
  completedAt (updated clock i patch k t) =
    if bool_decide (id t ≠ i) then completedAt t
    else completedAt (patchTask (clock k) patch t).
Proof.
  unfold updated.
  destruct (bool_decide (id t ≠ i)); by destruct (_ && _).
Qed.

Lemma updated_completed clock i patch k t :
  let t' := updated clock i patch k t in
  (completed_iff_done t → completed_iff_done t')
  ∧ (status t ≠ Done → status t' = Done → is_Some (completedAt t'))
  ∧ (status t = Done → status t' ≠ Done → completedAt t' = None).
Proof.
  cbn zeta. unfold completed_iff_done.
  rewrite updated_status, updated_completedAt.
  destruct (bool_decide (id t ≠ i)); [by split_and!|].
  rewrite patchTask_eq. cbn [completedAt].
  destruct (status t), (patched_status patch t); cbn;
    try destruct (falsy_string (completedAt t)) eqn:Hf;
    try apply falsy_None_or_Some in Hf;
    split_and!; try done; try tauto;
    try (intros [H1 H2]; split; intros H3; try done;
         try (by destruct H3); try (by apply H1 in H3)).
Qed.


(** *** Frame properties of [addTask] and [updateTask] *)

Lemma length_updateTask clock i patch prev :
  length (updateTask clock i patch prev) = length prev.
Proof. unfold updateTask. by rewrite length_fmap, length_imap. Qed.

Lemma updateTask_ids clock i patch prev :
  id <$> updateTask clock i patch prev = id <$> prev.
Proof.
  apply list_eq. intros k. rewrite !list_lookup_fmap, updateTask_lookup.
  destruct (prev !! k); cbn; [|done]. by rewrite updated_id.
Qed.

(** C10.  [addTask] returns the previous collection followed by exactly one
    new task.  [updateTask] keeps the length of the collection and the
    order of its ids, and leaves every task whose id is not the target as
    it was, at its position. *)
Theorem addTask_updateTask_frame :
  (∀ now crypto clock task prev,
      ∃ t, addTask now crypto clock task prev = prev ++ [t])
  ∧ (∀ clock i patch prev,
      length (updateTask clock i patch prev) = length prev
      ∧ id <$> updateTask clock i patch prev = id <$> prev
      ∧ ∀ k t, prev !! k = Some t → id t ≠ i →
          updateTask clock i patch prev !! k = Some t).
Proof.
  split.
  - intros now crypto clock task prev.
    destruct (addTask_inv now crypto clock task prev) as (t & H & _). eauto.
  - intros clock i patch prev. split_and!.
    + apply length_updateTask.
    + apply updateTask_ids.
    + intros k t Hk Hne. rewrite updateTask_lookup, Hk. cbn.
      by rewrite updated_other.
Qed.

(** *** Unknown ids *)

Lemma filter_all_ne (i : string) (l : list Task) :
  i ∉ id <$> l → filter (λ t, id t ≠ i) l = l.
Proof.
  induction l as [|t l IH]; intros Hi; [done|].
  rewrite fmap_cons in Hi. apply not_elem_of_cons in Hi as [Hne Hi].
  rewrite filter_cons_True by done. by rewrite IH.
Qed.

Lemma find_absent (i : string) (l : list Task) :
  i ∉ id <$> l → List.find (λ t, bool_decide (id t = i)) l = None.
Proof.
  induction l as [|t l IH]; intros Hi; [done|].
  rewrite fmap_cons in Hi. apply not_elem_of_cons in Hi as [Hne Hi].
  cbn. rewrite bool_decide_eq_false_2 by done. by apply IH.
Qed.

Lemma updateTask_absent clock i patch prev :
  i ∉ id <$> prev → updateTask clock i patch prev = prev.
Proof.
  intros Hi. apply list_eq. intros k. rewrite updateTask_lookup.
  destruct (prev !! k) as [t|] eqn:Hk; [|done]. cbn.
  rewrite updated_other; [done|]. intros <-. apply Hi.
  apply list_elem_of_fmap. exists t. split; [done|].
  by eapply list_elem_of_lookup_2.
Qed.

(** C4, as the code has it.  When no task of the collection has the id,
    [updateTask] leaves the store, collection and undo slot, as it was;
    [deleteTask] leaves the collection as it was and empties the undo
    slot.  Both are total functions: nothing is raised. *)
Theorem unknown_id_update_delete s i clock patch :
  i ∉ id <$> tasks s →
  step s (OpUpdate clock i patch) = s
  ∧ tasks (step s (OpDelete i)) = tasks s
  ∧ lastDeleted (step s (OpDelete i)) = None.
Proof.
  intros Hi. destruct s as [l d]. cbn [tasks] in Hi.
  unfold step, step_from, deleteTask. cbn [tasks lastDeleted]. split_and!.
  - by rewrite updateTask_absent.
  - by apply filter_all_ne.
  - by apply find_absent.
Qed.

(** *** Delete, then undo *)

Lemma find_present (i : string) (l : list Task) t :
  t ∈ l → id t = i →
  ∃ t0, List.find (λ u, bool_decide (id u = i)) l = Some t0
        ∧ t0 ∈ l ∧ id t0 = i.
Proof.
  intros Ht Hid.
  destruct (List.find (λ u, bool_decide (id u = i)) l) as [t0|] eqn:Hf.
  - apply find_some in Hf as [Hin Hb]. exists t0. split_and!; [done| |].
    + by apply list_elem_of_In.
    + by apply bool_decide_eq_true in Hb.
  - eapply find_none in Hf; [|by apply list_elem_of_In].
    apply bool_decide_eq_false in Hf. done.
Qed.

Lemma NoDup_ids_eq (l : list Task) t t0 :
  NoDup (id <$> l) → t ∈ l → t0 ∈ l → id t = id t0 → t = t0.
Proof.
  intros Hnd [j Hj]%list_elem_of_lookup [k Hk]%list_elem_of_lookup Hid.
  assert (j = k) as ->; [|congruence].
  eapply NoDup_lookup; [exact Hnd| |].
  - by rewrite list_lookup_fmap, Hj.
  - rewrite list_lookup_fmap, Hk. cbn. by rewrite Hid.
Qed.

Lemma find_first (i : string) (l : list Task) t0 :
  List.find (λ u, bool_decide (id u = i)) l = Some t0 ↔
  ∃ l1 l2, l = l1 ++ t0 :: l2 ∧ id t0 = i ∧ i ∉ id <$> l1.
Proof.
  induction l as [|t l IH]; cbn.
  - split; [done|]. intros (l1 & l2 & Hl & _). by destruct l1.
  - destruct (decide (id t = i)) as [He|Hne].
    + rewrite bool_decide_eq_true_2 by done. split.
      * intros [= <-]. exists [], l. split_and!; [done..|]. cbn. apply not_elem_of_nil.
      * intros (l1 & l2 & Hl & Hid & Hnot). destruct l1 as [|u l1]; cbn in Hl.
        { by injection Hl as <- _. }
        injection Hl as <- _. destruct Hnot. rewrite fmap_cons, He. constructor.
    + rewrite bool_decide_eq_false_2 by done. rewrite IH. split.
      * intros (l1 & l2 & -> & Hid & Hnot). exists (t :: l1), l2.
        split_and!; [done..|]. rewrite fmap_cons.
        apply not_elem_of_cons. split; [congruence|done].
      * intros (l1 & l2 & Hl & Hid & Hnot). destruct l1 as [|u l1]; cbn in Hl.
        { injection Hl as -> _. done. }
        injection Hl as <- ->. exists l1, l2. split_and!; [done..|].
        rewrite fmap_cons in Hnot. by apply not_elem_of_cons in Hnot as [_ ?].
Qed.

(** Only [undoDelete] reads the render it comes from. *)
Lemma step_from_keeps_slot render s op :
  keeps_slot op = true → step_from render s op = step s op.
Proof. by destruct op. Qed.

(** C6, with the renders of the hook in view.  In a store holding a task
    with id [X], [deleteTask X] followed by the [undoDelete] of a render
    that has seen the delete (the slot of that render is the one
    [deleteTask] has filled) leaves the tasks with another id in their
    order, followed by a task [t0] of the original collection with id [X],
    unchanged in every field (the very task when ids are unique), and an
    empty undo slot.  The [undoDelete] of the render that follows changes
    nothing, and so does every [undoDelete] of a render whose slot is
    empty. *)
Theorem delete_then_undo s X t render :
  t ∈ tasks s → id t = X →
  lastDeleted render = lastDeleted (step s (OpDelete X)) →
  ∃ t0, t0 ∈ tasks s ∧ id t0 = X
    ∧ (NoDup (id <$> tasks s) → t0 = t)
    ∧ let s2 := step_from render (step s (OpDelete X)) OpUndo in
      tasks s2 = filter (λ u, id u ≠ X) (tasks s) ++ [t0]
      ∧ lastDeleted s2 = None
      ∧ step s2 OpUndo = s2
      ∧ ∀ render' s', lastDeleted render' = None → step_from render' s' OpUndo = s'.
Proof.
  intros Ht Hid Hrender.
  destruct (find_present X (tasks s) t Ht Hid) as (t0 & Hf & Hin & Hid0).
  exists t0. split_and!; [done..| |].
  - intros Hnd. eapply NoDup_ids_eq; [done..|congruence].
  - assert (lastDeleted render = Some t0) as Hslot by (by rewrite Hrender).
    cbn zeta. unfold step, step_from, undoDelete, deleteTask.
    rewrite Hslot. cbn [tasks lastDeleted]. split_and!; [done..|].
    intros render' s' Hnone. by rewrite Hnone.
Qed.

(** *** Ids that collide *)

(** C1, at two runs of the store from its initial state.  Adding tasks
    with the supplied ids a, a-2 and a leaves two tasks with the id a-2:
    the third call finds a taken and appends the length 2 of the
    collection.  Adding a, deleting it, adding a again and undoing the
    delete leaves two tasks with the id a. *)
Theorem ids_not_unique now crypto clock :
  let add s := OpAdd now crypto clock (raw_id s) in
  id <$> tasks (run initial [add "a"; add "a-2"; add "a"]) = ["a"; "a-2"; "a-2"]
  ∧ id <$> tasks (run initial [add "a"; OpDelete "a"; add "a"; OpUndo]) = ["a"; "a"].
Proof. split; vm_compute; reflexivity. Qed.

(** C5, at the batch of three records with the supplied ids a-2, a and a.
    The third record finds a among the ids seen and is given a followed
    by its index 2, the id the first record already holds: whenever
    [normalizeTasks] returns, the ids of its result are a-2, a, a-2. *)
Theorem normalize_suffix_collides now crypto out :
  normalizeTasks now crypto
    (Some [Some (raw_id "a-2"); Some (raw_id "a"); Some (raw_id "a")]) = Some out →
  id <$> out = ["a-2"; "a"; "a-2"].
Proof.
  unfold normalizeTasks. cbn [default normalizeLoop]. intros H.
  apply bind_Some in H as (t0 & H0 & H).
  apply normalizeRecord_inv in H0 as (Hid0 & _).
  assert (id t0 = "a-2") as E0 by (rewrite Hid0; vm_compute; reflexivity).
  rewrite E0 in H.
  apply bind_Some in H as (t1 & H1 & H).
  apply normalizeRecord_inv in H1 as (Hid1 & _).
  assert (id t1 = "a") as E1 by (rewrite Hid1; vm_compute; reflexivity).
  rewrite E1 in H.
  apply bind_Some in H as (t2 & H2 & H).
  apply normalizeRecord_inv in H2 as (Hid2 & _).
  assert (id t2 = "a-2") as E2 by (rewrite Hid2; vm_compute; reflexivity).
  injection H as <-. cbn. by rewrite E0, E1, E2.
Qed.

(** *** Where ids do stay unique *)

Lemma normalizeLoop_distinct_ids now crypto arr : ∀ idx seen out0 out ids,
  normalizeLoop now crypto arr idx seen out0 = Some out →
  Forall2 (λ r s, trimmed_string (Raw.id (default Raw.empty r)) = Some s) arr ids →
  (∀ s, s ∈ ids → s ∉ seen) →
  NoDup ids →
  id <$> out = (id <$> out0) ++ ids.
Proof.
  induction arr as [|r rest IH]; intros idx seen out0 out ids H Hids Hseen Hnd.
  - apply Forall2_nil_inv_l in Hids as ->. cbn in H. injection H as <-.
    by rewrite app_nil_r.
  - apply Forall2_cons_inv_l in Hids as (s & ids' & Hs & Hids' & ->).
    apply NoDup_cons in Hnd as [Hnotin Hnd].
    cbn in H. apply bind_Some in H as (task & Hrec & H).
    apply normalizeRecord_inv in Hrec as (Hid & _).
    rewrite Hs in Hid. cbn in Hid.
    rewrite bool_decide_eq_false_2 in Hid by (apply Hseen; constructor).
    rewrite Hid in H.
    apply (IH _ _ _ _ ids') in H; [|done| |done].
    + rewrite H, fmap_app, <- app_assoc. cbn. by rewrite Hid.
    + intros s' Hin [->%elem_of_singleton|Hin']%elem_of_union; [done|].
      eapply Hseen; [|done]. by constructor.
Qed.

(** When every record of the batch supplies a non-blank id and the trimmed
    ids are pairwise distinct, [normalizeTasks] gives each task the trimmed
    id of its record: supplied ids are kept, and the result has unique
    ids. *)
Theorem normalize_distinct_ids now crypto input out ids :
  normalizeTasks now crypto (Some input) = Some out →
  Forall2 (λ r s, trimmed_string (Raw.id (default Raw.empty r)) = Some s) input ids →
  NoDup ids →
  id <$> out = ids ∧ NoDup (id <$> out).
Proof.
  intros H Hids Hnd. unfold normalizeTasks in H. cbn [default] in H.
  eapply normalizeLoop_distinct_ids in H; [|done| |done].
  - cbn in H. by rewrite H.
  - intros s _. apply not_elem_of_empty.
Qed.

Lemma addTask_fresh_id now crypto clock task prev s0 :
  trimmed_string (Raw.id task) = Some s0 →
  s0 ∉ id <$> prev →
  id <$> addTask now crypto clock task prev = (id <$> prev) ++ [s0].
Proof.
  intros Hs Hfresh. unfold addTask. rewrite fmap_app. cbn. rewrite Hs.
  rewrite bool_decide_eq_false_2; [done|].
  by rewrite elem_of_list_to_set.
Qed.

(** Unique ids are kept by [updateTask], [deleteTask] and
    [clearLastDeleted], and by [addTask] when the new task supplies a
    non-blank id that no task of the collection has. *)
Theorem unique_ids_preserved s :
  NoDup (id <$> tasks s) →
  (∀ clock i patch, NoDup (id <$> tasks (step s (OpUpdate clock i patch))))
  ∧ (∀ i, NoDup (id <$> tasks (step s (OpDelete i))))
  ∧ NoDup (id <$> tasks (step s OpClear))
  ∧ (∀ now crypto clock task s0,
       trimmed_string (Raw.id task) = Some s0 →
       s0 ∉ id <$> tasks s →
       id <$> tasks (step s (OpAdd now crypto clock task)) = (id <$> tasks s) ++ [s0]
       ∧ NoDup (id <$> tasks (step s (OpAdd now crypto clock task)))).
Proof.
  intros Hnd. unfold step, step_from, deleteTask, clearLastDeleted. cbn [tasks].
  split_and!.
  - intros clock i patch. by rewrite updateTask_ids.
  - intros i. revert Hnd. generalize (tasks s) as l.
    induction l as [|t l IH]; [done|]. rewrite fmap_cons.
    intros [Hnotin Hnd]%NoDup_cons.
    destruct (decide (id t ≠ i)) as [Hne|He].
    + rewrite filter_cons_True by done. rewrite fmap_cons.
      apply NoDup_cons. split; [|by apply IH].
      intros (u & Hu & [_ Hin]%list_elem_of_filter)%list_elem_of_fmap.
      apply Hnotin. apply list_elem_of_fmap. eauto.
    + rewrite filter_cons_False by done. by apply IH.
  - done.
  - intros now crypto clock task s0 Hs Hfresh.
    rewrite (addTask_fresh_id _ _ _ _ _ _ Hs Hfresh). split; [done|].
    apply NoDup_app. split_and!; [done| |apply NoDup_singleton].
    intros x Hx ->%list_elem_of_singleton. done.
Qed.

(** *** The fields [updateTask] leaves on the task it patches *)

(** What [updateTask] leaves of a task [t] with the target id, field by
    field.  The id and [createdAt] stay.  A title present in the patch
    becomes its trimmed text, or the default Untitled Task when it is blank
    or not a string.  A revenue, priority, status or notes value present in
    the patch is stored when it is valid and ignored otherwise, the field
    keeping its value.  [timeTaken] ends as 1 when the patch value (or,
    when the patch has none, the value after the first pass) is at or below
    0; otherwise it is the rounded patch value when that is finite and
    above 0, and the stored value when it is not.  [completedAt], which no
    patch can set, follows the status: it is cleared when the status
    leaves Done, stamped with the time of the call when the status becomes
    Done and there was none, and kept otherwise. *)
Theorem updateTask_target_fields clock i patch prev k t :
  prev !! k = Some t → id t = i →
  ∃ t', updateTask clock i patch prev !! k = Some t'
    ∧ id t' = id t
    ∧ createdAt t' = createdAt t
    ∧ title t' =
        (if is_undefined (Raw.title patch) then title t
         else default "Untitled Task" (trimmed_string (Raw.title patch)))
    ∧ revenue t' =
        (if is_undefined (Raw.revenue patch) then revenue t
         else if isFinite (ToNumber (Raw.revenue patch))
              then ToNumber (Raw.revenue patch) else revenue t)
    ∧ priority t' =
        (if is_undefined (Raw.priority patch) then priority t
         else default (priority t) (priority_of (Raw.priority patch)))
    ∧ status t' =
        (if is_undefined (Raw.status patch) then status t
         else default (status t) (status_of (Raw.status patch)))
    ∧ notes t' =
        (if is_undefined (Raw.notes patch) then notes t
         else default (notes t) (string_of (Raw.notes patch)))
    ∧ timeTaken t' =
        (let kept :=
           if is_undefined (Raw.timeTaken patch) then timeTaken t
           else positive_time (ToNumber (Raw.timeTaken patch)) (timeTaken t) in
         if num_le0 (ToNumber (if is_nullish (Raw.timeTaken patch)
                               then VNum kept else Raw.timeTaken patch))
         then num_of_Z 1 else kept)
    ∧ completedAt t' =
        (if is_Done (status t) && negb (is_Done (status t')) then None
         else if negb (is_Done (status t)) && is_Done (status t')
                 && falsy_string (completedAt t)
              then Some (toISOString (clock k))
              else completedAt t).
Proof.
  intros Hk Hid. rewrite updateTask_lookup, Hk. cbn [fmap option_fmap option_map].
  eexists. split; [reflexivity|]. unfold updated.
  rewrite (bool_decide_eq_false_2 (id t ≠ i)) by (intros Hne; by apply Hne).
  rewrite (bool_decide_eq_true_2 (id (patchTask (clock k) patch t) = i))
    by (by rewrite patchTask_id).
  unfold time_check. rewrite patchTask_eq.
  cbn [id title revenue timeTaken priority status notes createdAt completedAt andb].
  unfold patched_status.
  destruct (num_le0 _); cbn; split_and!; reflexivity.
Qed.

(** *** Titles and revenues of stored tasks *)

Lemma trim_end_cons_keep c s :
  is_space c = false → ∃ r, trim_end (String c s) = String c r.
Proof.
  intros Hc. cbn. destruct (trim_end s); [|eauto]. rewrite Hc. eauto.
Qed.

Lemma trim_end_idemp s : trim_end (trim_end s) = trim_end s.
Proof.
  induction s as [|c s IH]; [done|]. cbn.
  destruct (trim_end s) as [|d r] eqn:Hs.
  - destruct (is_space c) eqn:Hc; [done|]. cbn. by rewrite Hc.
  - change (trim_end (String c (String d r)))
      with (match trim_end (String d r) with
            | EmptyString => if is_space c then EmptyString else String c EmptyString
            | r' => String c r'
            end).
    by rewrite IH.
Qed.

Lemma trim_start_shape s :
  trim_start s = EmptyString
  ∨ ∃ c r, trim_start s = String c r ∧ is_space c = false.
Proof.
  induction s as [|c s IH]; [by left|]. cbn.
  destruct (is_space c) eqn:Hc; [done|]. right. eauto.
Qed.

Lemma trim_idemp s : trim (trim s) = trim s.
Proof.
  unfold trim. destruct (trim_start_shape s) as [->|(c & r & -> & Hc)]; [done|].
  destruct (trim_end_cons_keep c r Hc) as [r' Hr].
  rewrite Hr. cbn [trim_start]. rewrite Hc, <- Hr. apply trim_end_idemp.
Qed.

Lemma title_default_ok v :
  default "Untitled Task" (trimmed_string v) ≠ ""
  ∧ trim (default "Untitled Task" (trimmed_string v)) =
      default "Untitled Task" (trimmed_string v).
Proof.
  destruct v as [| | | |s|]; cbn; try (split; [done|reflexivity]).
  unfold nonempty. destruct (String.eqb_spec (trim s) "") as [He|Hne]; cbn.
  - split; [done|reflexivity].
  - split; [done|apply trim_idemp].
Qed.

(** A property of tasks that [addTask] gives the new task and [updateTask]
    keeps is kept by every operation, on the collection and the undo
    slot, whichever render the function called comes from. *)
Lemma step_from_store_all (P : Task → Prop) :
  (∀ now crypto clock task prev t,
     addTask now crypto clock task prev = prev ++ [t] → P t) →
  (∀ clock i patch k t, P t → P (updated clock i patch k t)) →
  ∀ render s op, store_all P render → store_all P s →
    store_all P (step_from render s op).
Proof.
  intros Hadd Hupd render s op [_ Hr] [Ht Hd]. unfold store_all.
  destruct op as [now crypto clock task|clock i patch|i| |];
    unfold step_from, deleteTask, clearLastDeleted; cbn [tasks lastDeleted].
  - split; [|done].
    destruct (addTask_inv now crypto clock task (tasks s)) as (t & Heq & _).
    rewrite Heq.
    intros t' [Hin| ->%list_elem_of_singleton]%elem_of_app; [by apply Ht|].
    by eapply Hadd.
  - split; [|done]. intros t' [k Hk]%list_elem_of_lookup.
    rewrite updateTask_lookup in Hk.
    apply fmap_Some in Hk as (t & Hk & ->).
    apply Hupd, Ht. by eapply list_elem_of_lookup_2.
  - split.
    + intros t [_ Hin]%list_elem_of_filter. by apply Ht.
    + intros t [Hin _]%find_some. by apply Ht, list_elem_of_In.
  - unfold undoDelete. destruct (lastDeleted render) as [d|] eqn:Hsl;
      [|split; [exact Ht|exact Hd]].
    split; [|done]. cbn.
    intros t [Hin| ->%list_elem_of_singleton]%elem_of_app; [by apply Ht|by apply Hr].
  - split; [exact Ht|done].
Qed.

Lemma step_store_all (P : Task → Prop) :
  (∀ now crypto clock task prev t,
     addTask now crypto clock task prev = prev ++ [t] → P t) →
  (∀ clock i patch k t, P t → P (updated clock i patch k t)) →
  ∀ s op, store_all P s → store_all P (step s op).
Proof.
  intros Hadd Hupd s op Hs. by apply step_from_store_all.
Qed.

(** If [normalizeTasks] establishes it too, it holds in every reachable
    store. *)
Lemma reachable_store_all (P : Task → Prop) :
  (∀ now crypto idx seen r t, normalizeRecord now crypto idx seen r = Some t → P t) →
  (∀ now crypto clock task prev t,
     addTask now crypto clock task prev = prev ++ [t] → P t) →
  (∀ clock i patch k t, P t → P (updated clock i patch k t)) →
  ∀ s, reachable s → store_all P s.
Proof.
  intros Hnorm Hadd Hupd s Hs.
  induction Hs as [|now crypto input out Hn|render s op _ IHr _ IHs
                   |s earlier _ IHs _ IHe].
  - split; cbn; [intros t Ht; by apply elem_of_nil in Ht|done].
  - split; cbn; [|done]. intros t [k Hk]%list_elem_of_lookup.
    pose proof Hn as [Hlen Hall]%normalizeTasks_inv.
    destruct (default [] input !! k) as [r|] eqn:Hr.
    + destruct (Hall k r Hr) as (seen & task & Hrec & Hout).
      assert (task = t) as -> by congruence. by eapply Hnorm.
    + apply lookup_ge_None in Hr. apply lookup_lt_Some in Hk. lia.
  - by apply step_from_store_all.
  - split; [apply IHs|apply IHe].
Qed.

Lemma updated_eq clock i patch k t :
  updated clock i patch k t = t
  ∨ updated clock i patch k t = patchTask (clock k) patch t
  ∨ updated clock i patch k t = set_timeTaken (num_of_Z 1) t
  ∨ updated clock i patch k t =
      set_timeTaken (num_of_Z 1) (patchTask (clock k) patch t).
Proof.
  unfold updated. destruct (bool_decide (id t ≠ i)); destruct (_ && _); eauto.
Qed.

(** In every reachable store, every task of the collection and the task in
    the undo slot has a title that is not empty and has no white space at
    either end. *)
Theorem reachable_title_ok s :
  reachable s → store_all title_ok s.
Proof.
  apply reachable_store_all.
  - intros now crypto idx seen r t Hrec.
    apply normalizeRecord_inv in Hrec as (_ & Ht & _).
    unfold title_ok. rewrite Ht. apply title_default_ok.
  - intros now crypto clock task prev t Heq. unfold addTask in Heq.
    apply app_inj_tail in Heq as [_ <-]. unfold title_ok. cbn [title].
    apply title_default_ok.
  - intros clock i patch k t Hok.
    assert (title_ok (patchTask (clock k) patch t)) as Hp.
    { unfold title_ok. rewrite patchTask_eq. cbn [title].
      destruct (is_undefined (Raw.title patch)); [exact Hok|apply title_default_ok]. }
    destruct (updated_eq clock i patch k t) as [->|[->|[->| ->]]]; done.
Qed.

(** In every reachable store, every task of the collection and the task in
    the undo slot has a finite revenue. *)
Theorem reachable_revenue_finite s :
  reachable s → store_all (λ t, isFinite (revenue t) = true) s.
Proof.
  apply reachable_store_all.
  - intros now crypto idx seen r t Hrec.
    apply normalizeRecord_inv in Hrec as (_ & _ & Hr & _). rewrite Hr.
    by destruct (isFinite (ToNumber (Raw.revenue r))) eqn:H.
  - intros now crypto clock task prev t Heq. unfold addTask in Heq.
    apply app_inj_tail in Heq as [_ <-]. cbn [revenue].
    by destruct (isFinite (ToNumber (Raw.revenue task))) eqn:H.
  - intros clock i patch k t Hok.
    assert (isFinite (revenue (patchTask (clock k) patch t)) = true) as Hp.
    { rewrite patchTask_eq. cbn [revenue].
      destruct (is_undefined (Raw.revenue patch)); [exact Hok|].
      by destruct (isFinite (ToNumber (Raw.revenue patch))) eqn:H. }
    destruct (updated_eq clock i patch k t) as [->|[->|[->| ->]]]; done.
Qed.

(** *** [completedAt] across the operations *)

(** If [completedAt] is present exactly on the Done tasks of a store (the
    collection and the undo slot), it is so after any sequence of
    operations: [addTask] stamps a Done task, [updateTask] stamps and
    clears on a change of status, the others move tasks as they are. *)
Theorem run_keeps_completedAt s ops :
  store_all completed_iff_done s → store_all completed_iff_done (run s ops).
Proof.
  revert s. induction ops as [|op ops IH]; intros s Hs; [done|].
  cbn. apply IH. apply step_store_all; [| |done].
  - intros now crypto clock task prev t Heq.
    destruct (addTask_inv now crypto clock task prev) as (t' & Heq' & _ & _ & Hc).
    rewrite Heq' in Heq. apply app_inj_tail in Heq as [_ <-].
    unfold completed_iff_done. rewrite Hc.
    destruct (status t'); cbn; split; try done; by intros [? ?].
  - intros clock i patch k t Hok. by apply updated_completed.
Qed.

(** *** The undo slot *)

Lemma run_keeps_slot ops : ∀ s,
  forallb keeps_slot ops = true → lastDeleted (run s ops) = lastDeleted s.
Proof.
  induction ops as [|op ops IH]; intros s H; [done|].
  cbn in H. apply andb_prop in H as [Hop Hops].
  cbn. rewrite IH by done. by destruct op.
Qed.

(** After [deleteTask] has put a task into the undo slot, any number of
    [addTask] and [updateTask] calls, which do not read the render they
    come from, leave it there; the [undoDelete] of a render that shows
    this slot then appends exactly that task to the collection these calls
    have built and empties the slot. *)
Theorem undo_after_adds_and_updates s X t ops render :
  t ∈ tasks s → id t = X →
  forallb keeps_slot ops = true →
  lastDeleted render = lastDeleted (run (step s (OpDelete X)) ops) →
  ∃ t0, t0 ∈ tasks s ∧ id t0 = X ∧
    let s1 := run (step s (OpDelete X)) ops in
    lastDeleted s1 = Some t0
    ∧ step_from render s1 OpUndo = mkStore (tasks s1 ++ [t0]) None
    ∧ ∀ render' s' op, op ∈ ops → step_from render' s' op = step s' op.
Proof.
  intros Ht Hid Hops Hrender.
  destruct (find_present X (tasks s) t Ht Hid) as (t0 & Hf & Hin & Hid0).
  exists t0. split_and!; [done..|]. cbn zeta.
  assert (lastDeleted (run (step s (OpDelete X)) ops) = Some t0) as Hslot.
  { rewrite run_keeps_slot by done. exact Hf. }
  split_and!; [exact Hslot| |].
  - unfold step_from at 1. rewrite Hrender, Hslot. done.
  - intros render' s' op Hop. apply step_from_keeps_slot.
    rewrite forallb_forall in Hops. by apply Hops, list_elem_of_In.
Qed.

Lemma deleteTask_ids i s : i ∉ id <$> tasks (deleteTask i s).
Proof.
  unfold deleteTask. cbn [tasks].
  intros (t & Hid & [Hne _]%list_elem_of_filter)%list_elem_of_fmap. by apply Hne.
Qed.

(** [deleteTask] leaves exactly the tasks with another id, each as often
    as before and in their order; the undo slot then holds the first task
    that had the id, and is empty exactly when no task had it. *)
Theorem deleteTask_effect i s :
  let s' := step s (OpDelete i) in
  tasks s' = filter (λ t, id t ≠ i) (tasks s)
  ∧ (i ∉ id <$> tasks s')
  ∧ tasks s' `sublist_of` tasks s
  ∧ (∀ t, t ∈ tasks s → id t ≠ i → t ∈ tasks s')
  ∧ (∀ t0, lastDeleted s' = Some t0 → t0 ∈ tasks s ∧ id t0 = i)
  ∧ (∀ t0, lastDeleted s' = Some t0 ↔
           ∃ l1 l2, tasks s = l1 ++ t0 :: l2 ∧ id t0 = i ∧ i ∉ id <$> l1)
  ∧ (lastDeleted s' = None ↔ i ∉ id <$> tasks s).
Proof.
  cbn zeta. unfold step, step_from. split_and!.
  - done.
  - apply deleteTask_ids.
  - apply sublist_filter.
  - intros t Hin Hne. by apply list_elem_of_filter.
  - intros t0 [Hin Hb]%find_some. split; [by apply list_elem_of_In|].
    by apply bool_decide_eq_true in Hb.
  - intros t0. apply find_first.
  - split.
    + intros Hnone (t & Hid & Hin)%list_elem_of_fmap.
      cbn in Hnone. eapply find_none in Hnone; [|by apply list_elem_of_In].
      apply bool_decide_eq_false in Hnone. by apply Hnone.
    + apply find_absent.
Qed.

(** Once a second [deleteTask] has run, whatever its id, the [undoDelete]
    of a render that has seen it does not bring back the tasks the first
    one removed: the slot holds one record, and the second call overwrites
    or empties it. *)
Theorem second_delete_discards_first s X Y render :
  lastDeleted render = lastDeleted (step (step s (OpDelete X)) (OpDelete Y)) →
  X ∉ id <$> tasks (step_from render (step (step s (OpDelete X)) (OpDelete Y)) OpUndo).
Proof.
  intros Hrender. unfold step_from at 1. rewrite Hrender.
  unfold step, step_from. set (s1 := deleteTask X s).
  pose proof (deleteTask_ids X s) as H1. fold s1 in H1.
  unfold undoDelete.
  destruct (lastDeleted (deleteTask Y s1)) as [t0|] eqn:Hslot; cbn [tasks].
  - rewrite fmap_app. intros [Hin|Hin]%elem_of_app.
    + apply H1. apply list_elem_of_fmap in Hin as (t & Hid & [_ Hin]%list_elem_of_filter).
      apply list_elem_of_fmap. eauto.
    + cbn in Hin. apply list_elem_of_singleton in Hin.
      apply find_some in Hslot as [Hin0 _]. apply H1.
      apply list_elem_of_fmap. exists t0. split; [done|]. by apply list_elem_of_In.
  - intros (t & Hid & [_ Hin]%list_elem_of_filter)%list_elem_of_fmap.
    apply H1. apply list_elem_of_fmap. eauto.
Qed.

Lemma delete_undo_perm X (l : list Task) t0 :
  NoDup (id <$> l) →
  List.find (λ t, bool_decide (id t = X)) l = Some t0 →
  filter (λ t, id t ≠ X) l ++ [t0] ≡ₚ l.
Proof.
  induction l as [|t l IH]; [done|]. rewrite fmap_cons.
  intros [Hnotin Hnd]%NoDup_cons Hf. cbn in Hf.
  destruct (decide (id t = X)) as [He|Hne].
  - rewrite bool_decide_eq_true_2 in Hf by done. injection Hf as <-.
    rewrite filter_cons_False by (intros H; by apply H).
    rewrite filter_all_ne by (by rewrite <- He).
    symmetry. apply Permutation_cons_append.
  - rewrite bool_decide_eq_false_2 in Hf by done.
    rewrite filter_cons_True by done. cbn. f_equiv. by apply IH.
Qed.

(** When the ids of the collection are pairwise unique, [deleteTask]
    followed by the [undoDelete] of a render that has seen the delete
    leaves the same tasks and an empty undo slot: the collection as it was
    when no task has the id, and otherwise the other tasks in their order
    followed by the task that has it. *)
Theorem delete_undo_permutation s X render :
  NoDup (id <$> tasks s) →
  lastDeleted render = lastDeleted (step s (OpDelete X)) →
  let s2 := step_from render (step s (OpDelete X)) OpUndo in
  tasks s2 ≡ₚ tasks s
  ∧ lastDeleted s2 = None
  ∧ (X ∉ id <$> tasks s → tasks s2 = tasks s)
  ∧ (∀ t, t ∈ tasks s → id t = X →
       tasks s2 = filter (λ u, id u ≠ X) (tasks s) ++ [t]).
Proof.
  intros Hnd Hrender. cbn zeta.
  replace (step_from render (step s (OpDelete X)) OpUndo)
    with (undoDelete (List.find (λ t, bool_decide (id t = X)) (tasks s))
            (deleteTask X s))
    by (unfold step_from at 1; by rewrite Hrender).
  unfold undoDelete, deleteTask.
  destruct (List.find (λ t, bool_decide (id t = X)) (tasks s)) as [t0|] eqn:Hf.
  - cbn [tasks lastDeleted]. split_and!; [by apply delete_undo_perm|done| |].
    + intros Hnot. apply find_absent in Hnot. congruence.
    + intros t Ht Hid. f_equal. f_equal.
      apply find_some in Hf as [Hin0 Hb]. apply bool_decide_eq_true in Hb.
      eapply NoDup_ids_eq; [exact Hnd|by apply list_elem_of_In|done|congruence].
  - cbn [tasks lastDeleted].
    assert (X ∉ id <$> tasks s) as Hnot.
    { intros (t & Hid & Hin)%list_elem_of_fmap.
      eapply find_none in Hf; [|by apply list_elem_of_In].
      apply bool_decide_eq_false in Hf. by apply Hf. }
    rewrite filter_all_ne by done. split_and!; [done..|].
    intros t Ht Hid. destruct Hnot. apply list_elem_of_fmap. eauto.
Qed.

(** *** Patches applied twice, and the fields a patch is read for *)

Lemma positive_time_idemp tt d :
  positive_time tt (positive_time tt d) = positive_time tt d.
Proof. unfold positive_time. by destruct (isFinite tt && num_gt0 tt). Qed.

Lemma default_idemp {A} (x : A) (o : option A) : default (default x o) o = default x o.
Proof. by destruct o. Qed.

Lemma time_ok_not_le0 n : time_ok n = true → num_le0 n = false.
Proof.
  destruct n as [| | |q]; try done. cbn. intros [H1 H2]%andb_prop.
  apply Z.leb_le in H1. destruct (Qle_bool q 0) eqn:Hq; [|done].
  apply Qle_bool_iff in Hq. unfold Qle in Hq. cbn in Hq. lia.
Qed.

(** The task [updateTask] leaves in place of a task with the target id, as
    a record. *)
Lemma updated_target_eq clock i patch k t :
  id t = i →
  updated clock i patch k t =
    let kept :=
      if is_undefined (Raw.timeTaken patch) then timeTaken t
      else positive_time (ToNumber (Raw.timeTaken patch)) (timeTaken t) in
    let st := patched_status patch t in
    mkTask (id t)
      (if is_undefined (Raw.title patch) then title t
       else default "Untitled Task" (trimmed_string (Raw.title patch)))
      (if is_undefined (Raw.revenue patch) then revenue t
       else if isFinite (ToNumber (Raw.revenue patch))
            then ToNumber (Raw.revenue patch) else revenue t)
      (if num_le0 (ToNumber (if is_nullish (Raw.timeTaken patch)
                             then VNum kept else Raw.timeTaken patch))
       then num_of_Z 1 else kept)
      (if is_undefined (Raw.priority patch) then priority t
       else default (priority t) (priority_of (Raw.priority patch)))
      st
      (if is_undefined (Raw.notes patch) then notes t
       else default (notes t) (string_of (Raw.notes patch)))
      (createdAt t)
      (if is_Done (status t) && negb (is_Done st) then None
       else if negb (is_Done (status t)) && is_Done st && falsy_string (completedAt t)
            then Some (toISOString (clock k))
            else completedAt t).
Proof.
  intros Hid. unfold updated.
  rewrite (bool_decide_eq_false_2 (id t ≠ i)) by (intros Hne; by apply Hne).
  rewrite (bool_decide_eq_true_2 (id (patchTask (clock k) patch t) = i))
    by (by rewrite patchTask_id).
  unfold time_check. rewrite patchTask_eq.
  cbn [id title revenue timeTaken priority status notes createdAt completedAt andb].
  cbn zeta. by destruct (num_le0 _).
Qed.

Lemma updated_twice clock1 clock2 i patch k t :
  updated clock2 i patch k (updated clock1 i patch k t) = updated clock1 i patch k t.
Proof.
  destruct (decide (id t = i)) as [Hid|Hne].
  2:{ rewrite (updated_other clock1) by done. by rewrite updated_other. }
  rewrite (updated_target_eq clock2) by (by rewrite updated_id).
  rewrite (updated_target_eq clock1 i patch k t Hid). cbn zeta.
  cbn [id title revenue timeTaken priority status notes createdAt completedAt].
  assert (∀ clock, patched_status patch
            (mkTask (id t)
               (if is_undefined (Raw.title patch) then title t
                else default "Untitled Task" (trimmed_string (Raw.title patch)))
               (if is_undefined (Raw.revenue patch) then revenue t
                else if isFinite (ToNumber (Raw.revenue patch))
                     then ToNumber (Raw.revenue patch) else revenue t)
               (if num_le0 (ToNumber (if is_nullish (Raw.timeTaken patch)
                                      then VNum (if is_undefined (Raw.timeTaken patch)
                                                 then timeTaken t
                                                 else positive_time (ToNumber (Raw.timeTaken patch)) (timeTaken t))
                                      else Raw.timeTaken patch))
                then num_of_Z 1
                else if is_undefined (Raw.timeTaken patch) then timeTaken t
                     else positive_time (ToNumber (Raw.timeTaken patch)) (timeTaken t))
               (if is_undefined (Raw.priority patch) then priority t
                else default (priority t) (priority_of (Raw.priority patch)))
               (patched_status patch t)
               (if is_undefined (Raw.notes patch) then notes t
                else default (notes t) (string_of (Raw.notes patch)))
               (createdAt t) clock) = patched_status patch t) as Hst.
  { intros c. unfold patched_status. cbn [status].
    destruct (is_undefined (Raw.status patch)); [done|apply default_idemp]. }
  rewrite Hst. f_equal.
  - by destruct (is_undefined (Raw.title patch)).
  - destruct (is_undefined (Raw.revenue patch)); [done|].
    by destruct (isFinite (ToNumber (Raw.revenue patch))).
  - destruct (Raw.timeTaken patch) as [| |b|n|str|n d] eqn:Hp;
      cbn [is_undefined is_nullish ToNumber].
    + destruct (num_le0 (timeTaken t)) eqn:Hle; cbn; by rewrite ?Hle.
    + rewrite !(positive_time_invalid (num_of_Z 0)) by done.
      destruct (num_le0 (timeTaken t)) eqn:Hle; cbn; by rewrite ?Hle.
    + destruct (num_le0 (num_of_Z (if b then 1 else 0))); [done|].
      apply positive_time_idemp.
    + destruct (num_le0 n); [done|]. apply positive_time_idemp.
    + destruct (num_le0 (StringToNumber str)); [done|]. apply positive_time_idemp.
    + destruct (num_le0 n); [done|]. apply positive_time_idemp.
  - destruct (is_undefined (Raw.priority patch)); [done|apply default_idemp].
  - destruct (is_undefined (Raw.notes patch)); [done|apply default_idemp].
  - by destruct (is_Done (patched_status patch t)).
Qed.

(** Applying the same patch to the same id a second time changes nothing,
    whatever the clock reads: [updateTask] is idempotent. *)
Theorem updateTask_idempotent clock1 clock2 i patch prev :
  updateTask clock2 i patch (updateTask clock1 i patch prev)
  = updateTask clock1 i patch prev.
Proof.
  apply list_eq. intros k. rewrite !updateTask_lookup.
  destruct (prev !! k) as [t|]; cbn; [|done]. by rewrite updated_twice.
Qed.

(** [updateTask] reads six fields of the patch: an id, a [createdAt] or a
    [completedAt] given in the patch has no effect on the result. *)
Theorem updateTask_unread_fields clock i patch prev :
  updateTask clock i patch prev = updateTask clock i (read_fields patch) prev.
Proof.
  apply list_eq. intros k. rewrite !updateTask_lookup.
  by destruct (prev !! k) as [t|].
Qed.

(** A patch that gives none of the six fields leaves every task as it is,
    provided the [timeTaken] of the tasks are integers at or above 1 (as
    they are in every reachable store). *)
Theorem updateTask_empty_patch clock i patch prev :
  read_fields patch = Raw.empty →
  (∀ t, t ∈ prev → time_ok (timeTaken t) = true) →
  updateTask clock i patch prev = prev.
Proof.
  intros Hp Hok. rewrite updateTask_unread_fields, Hp.
  apply list_eq. intros k. rewrite updateTask_lookup.
  destruct (prev !! k) as [t|] eqn:Hk; cbn; [|done]. f_equal.
  destruct (decide (id t = i)) as [Hid|Hne]; [|by rewrite updated_other].
  rewrite updated_target_eq by done. cbn.
  rewrite time_ok_not_le0 by (apply Hok; by eapply list_elem_of_lookup_2).
  unfold patched_status. cbn.
  destruct t as [a b c d e st g h co]. cbn. by destruct st.
Qed.

(** *** The id [addTask] stores when the supplied one is taken *)

(** With [id0] the id [addTask] starts from (the trimmed id supplied, or
    the generated one), the id it stores is [id0], or [id0] followed by the
    length of the collection when [id0] is taken.  In a collection with
    unique ids the result has unique ids exactly when that stored id is
    free, that is, unless both [id0] and its suffixed form are taken. *)
Theorem addTask_unique_iff now crypto clock task prev :
  let id0 :=
    default (default ("task-" +:+ pretty now) crypto) (trimmed_string (Raw.id task)) in
  let suffixed := id0 +:+ "-" +:+ pretty (length prev) in
  NoDup (id <$> prev) →
  id <$> addTask now crypto clock task prev
    = (id <$> prev) ++ [if bool_decide (id0 ∈ id <$> prev) then suffixed else id0]
  ∧ (NoDup (id <$> addTask now crypto clock task prev)
     ↔ (id0 ∈ id <$> prev → suffixed ∉ id <$> prev)).
Proof.
  cbn zeta. intros Hnd.
  set (id0 := default (default ("task-" +:+ pretty now) crypto)
                (trimmed_string (Raw.id task))).
  assert (id <$> addTask now crypto clock task prev
          = (id <$> prev) ++
            [if bool_decide (id0 ∈ id <$> prev)
             then id0 +:+ "-" +:+ pretty (length prev) else id0]) as Heq.
  { unfold addTask. rewrite fmap_app. cbn [fmap list_fmap id]. f_equal. f_equal.
    assert (match trimmed_string (Raw.id task) with
            | Some s => s
            | None => match crypto with
                      | Some uuid => uuid
                      | None => "task-" +:+ pretty now
                      end
            end = id0) as ->.
    { unfold id0. by destruct (trimmed_string (Raw.id task)), crypto. }
    apply (f_equal (λ b : bool, if b then _ else _)).
    apply bool_decide_ext. by rewrite elem_of_list_to_set. }
  split; [exact Heq|]. rewrite Heq.
  rewrite NoDup_app. case_bool_decide as Hin.
  - split.
    + intros (_ & Hdisj & _) _ Hs. eapply Hdisj; [exact Hs|]. by constructor.
    + intros Hfree. split_and!; [done| |apply NoDup_singleton].
      intros x Hx ->%list_elem_of_singleton. by apply Hfree.
  - split; [done|]. intros _. split_and!; [done| |apply NoDup_singleton].
    intros x Hx ->%list_elem_of_singleton. done.
Qed.

(** *** The ids [normalizeTasks] gives *)

Lemma normalizeLoop_id_rule now crypto arr : ∀ idx seen out0 out,
  normalizeLoop now crypto arr idx seen out0 = Some out →
  idx = length out0 →
  (∀ x, x ∈ seen ↔ x ∈ id <$> out0) →
  ∀ k r t, arr !! k = Some r → out !! (idx + k)%nat = Some t →
    id t =
      (if bool_decide (base_id now crypto (idx + k) r ∈ id <$> take (idx + k) out)
       then base_id now crypto (idx + k) r +:+ "-" +:+ pretty (idx + k)%nat
       else base_id now crypto (idx + k) r).
Proof.
  clear generateSalesTasks RangeError_message.
  induction arr as [|r0 rest IH]; intros idx seen out0 out H Hidx Hseen k r t Hk Ht.
  - by rewrite lookup_nil in Hk.
  - cbn in H. apply bind_Some in H as (task & Hrec & H).
    pose proof H as (new & Hout & _)%normalizeLoop_inv.
    destruct k as [|k]; cbn in Hk.
    + injection Hk as <-. rewrite Nat.add_0_r in Ht |- *.
      assert (t = task) as ->.
      { rewrite Hout, <- app_assoc, lookup_app_r in Ht by lia.
        rewrite Hidx, Nat.sub_diag in Ht. cbn in Ht. congruence. }
      assert (take idx out = out0) as ->.
      { rewrite Hout, <- app_assoc, Hidx. by rewrite take_app_length. }
      apply normalizeRecord_inv in Hrec as (Hid & _). rewrite Hid.
      unfold base_id.
      apply (f_equal (λ b : bool, if b then _ else _)).
      apply bool_decide_ext, Hseen.
    + replace (idx + S k)%nat with (S idx + k)%nat in Ht |- * by lia.
      eapply (IH (S idx) _ (out0 ++ [task])); [exact H| | |exact Hk|exact Ht].
      * rewrite length_app. cbn. lia.
      * intros x. rewrite fmap_app, elem_of_app, elem_of_union, elem_of_singleton.
        cbn. rewrite list_elem_of_singleton, Hseen. tauto.
Qed.

(** The task [normalizeTasks] makes of the element at position [k] gets the
    id that element starts from (supplied and trimmed, or synthesized),
    unless a task before it in the result already has that id: then it
    gets that id followed by a dash and [k], whether or not that is taken
    too. *)
Theorem normalize_id_rule now crypto input out k r t :
  normalizeTasks now crypto input = Some out →
  default [] input !! k = Some r →
  out !! k = Some t →
  id t =
    (if bool_decide (base_id now crypto k r ∈ id <$> take k out)
     then base_id now crypto k r +:+ "-" +:+ pretty k
     else base_id now crypto k r).
Proof.
  intros H Hk Ht. unfold normalizeTasks in H.
  eapply (normalizeLoop_id_rule now crypto _ 0%nat ∅ [] out H eq_refl);
    [|exact Hk|exact Ht].
  intros x. split; [by intros ?%not_elem_of_empty|by intros ?%elem_of_nil].
Qed.

Lemma normalizeLoop_base_ids now crypto arr : ∀ idx seen out0 out ids,
  normalizeLoop now crypto arr idx seen out0 = Some out →
  length ids = length arr →
  (∀ k r, arr !! k = Some r → ids !! k = Some (base_id now crypto (idx + k) r)) →
  (∀ s, s ∈ ids → s ∉ seen) →
  NoDup ids →
  id <$> out = (id <$> out0) ++ ids.
Proof.
  induction arr as [|r rest IH]; intros idx seen out0 out ids H Hlen Hids Hseen Hnd.
  - destruct ids; [|done]. cbn in H. injection H as <-. by rewrite app_nil_r.
  - destruct ids as [|s ids']; [done|].
    pose proof (Hids 0%nat r eq_refl) as Hs. cbn in Hs. injection Hs as Hs.
    rewrite Nat.add_0_r in Hs.
    apply NoDup_cons in Hnd as [Hnotin Hnd].
    cbn in H. apply bind_Some in H as (task & Hrec & H).
    apply normalizeRecord_inv in Hrec as (Hid & _). cbn zeta in Hid.
    change (default (synthetic_id crypto now idx)
              (trimmed_string (Raw.id (default Raw.empty r))))
      with (base_id now crypto idx r) in Hid.
    rewrite <- Hs in Hid.
    rewrite bool_decide_eq_false_2 in Hid by (apply Hseen; constructor).
    rename Hid into Hid'.
    rewrite Hid' in H.
    apply (IH _ _ _ _ ids') in H; [| | | |done].
    + rewrite H, fmap_app, <- app_assoc. cbn. by rewrite Hid'.
    + cbn in Hlen. lia.
    + intros k r' Hk. specialize (Hids (S k) r' Hk). cbn in Hids.
      by replace (S idx + k)%nat with (idx + S k)%nat by lia.
    + intros s' Hin [->%elem_of_singleton|Hin']%elem_of_union; [done|].
      eapply Hseen; [|done]. by constructor.
Qed.

(** When no element of the batch supplies an id and the runtime has no
    [crypto.randomUUID], the tasks get the ids task-now-0, task-now-1, ...
    in order, and these are pairwise unique. *)
Theorem normalize_synthetic_ids now input out :
  normalizeTasks now None (Some input) = Some out →
  (∀ r, r ∈ input → trimmed_string (Raw.id (default Raw.empty r)) = None) →
  id <$> out =
    (λ k : nat, "task-" +:+ pretty now +:+ "-" +:+ pretty k) <$> seq 0 (length input)
  ∧ NoDup (id <$> out).
Proof.
  intros H Hblank. unfold normalizeTasks in H. cbn [default] in H.
  set (f := λ k : nat, "task-" +:+ pretty now +:+ "-" +:+ pretty k).
  assert (NoDup (f <$> seq 0 (length input))) as Hnd.
  { apply NoDup_fmap_2; [|apply NoDup_seq].
    intros a b Hab. unfold f in Hab.
    apply (inj (String.app "task-")) in Hab.
    apply (inj (String.app (pretty now))) in Hab.
    apply (inj (String.app "-")) in Hab. by apply (inj pretty) in Hab. }
  eapply (normalizeLoop_base_ids _ _ _ _ _ _ _ (f <$> seq 0 (length input))) in H.
  - cbn in H. by rewrite H.
  - by rewrite length_fmap, length_seq.
  - intros k r Hk. rewrite list_lookup_fmap, lookup_seq_lt by (by eapply lookup_lt_Some).
    cbn. unfold base_id. rewrite Hblank by (by eapply list_elem_of_lookup_2). done.
  - intros s _. apply not_elem_of_empty.
  - exact Hnd.
Qed.

(** *** When [normalizeTasks] returns and when it throws *)

(** [normalizeTasks] returns, with one task for each element, whenever the
    runtime parses back the dates it prints, [now] is a time of the present
    era, the batch has at most a hundred million elements and every
    [createdAt] that is a date lies at least one day before the end of the
    range of dates. *)
Theorem normalizeTasks_returns now crypto input :
  (∀ ms, - max_time ≤ ms ≤ max_time → Date_parse (toISOString ms) = Some ms) →
  0 ≤ now ≤ max_time →
  Z.of_nat (length input) * (24 * 3600 * 1000) ≤ max_time →
  (∀ r ms, r ∈ input →
     truthy (Raw.createdAt (default Raw.empty r)) = true →
     new_Date (Raw.createdAt (default Raw.empty r)) = Some ms →
     - max_time ≤ ms ≤ max_time - 24 * 3600 * 1000) →
  ∃ out, normalizeTasks now crypto (Some input) = Some out
         ∧ length out = length input.
Proof.
  intros Hrt Hnow Hlen Hdate.
  destruct (normalizeLoop_returns now crypto input 0%nat ∅ [] Hrt Hnow) as [out Hout];
    [lia|done|].
  change (normalizeTasks now crypto (Some input) = Some out) in Hout.
  exists out. split; [exact Hout|].
  by apply normalizeTasks_inv in Hout as [Hl _].
Qed.

(** One element is enough to make [normalizeTasks] throw, whatever the
    rest of the batch: a Done record without a [completedAt] whose
    [createdAt] is a date less than a day before the end of the range of
    dates.  The [completedAt] to synthesize is out of range and
    [toISOString] throws. *)
Theorem normalizeTasks_throws now crypto input k r d d' :
  input !! k = Some (Some r) →
  status_of (Raw.status r) = Some Done →
  falsy_string (string_of (Raw.completedAt r)) = true →
  truthy (Raw.createdAt r) = true →
  new_Date (Raw.createdAt r) = Some d →
  Date_parse (toISOString d) = Some d' →
  max_time < d' + 24 * 3600 * 1000 →
  normalizeTasks now crypto (Some input) = None.
Proof.
  intros Hk Hst Hc Ht Hd Hp Hmax.
  destruct (normalizeTasks now crypto (Some input)) as [out|] eqn:Hn; [|done].
  apply normalizeTasks_inv in Hn as [_ Hall].
  destruct (Hall k (Some r) Hk) as (seen & task & Hrec & _).
  change (default Raw.empty (Some r)) with r in Hrec.
  unfold normalizeRecord in Hrec. cbn zeta in Hrec.
  rewrite Ht, Hd, Hst, Hc in Hrec. cbn in Hrec.
  rewrite Hp in Hrec. cbn in Hrec. rewrite TimeClip_None in Hrec by lia.
  by cbn in Hrec.
Qed.

(** Whatever [normalizeTasks] is given, no element is dropped: the result
    has one task for each element, and none when the argument is not an
    array.  An element that is [null], or has none of the fields, becomes a
    task titled Untitled Task with revenue 0, [timeTaken] 1, priority Low,
    status Todo, empty notes and no [completedAt]. *)
Theorem normalizeTasks_missing_fields now crypto input out :
  normalizeTasks now crypto input = Some out →
  length out = length (default [] input)
  ∧ (input = None → out = [])
  ∧ ∀ k r t, default [] input !! k = Some r → default Raw.empty r = Raw.empty →
      out !! k = Some t →
      title t = "Untitled Task" ∧ revenue t = num_of_Z 0 ∧ timeTaken t = num_of_Z 1
      ∧ priority t = Low ∧ status t = Todo ∧ notes t = "" ∧ completedAt t = None.
Proof.
  intros Hn. pose proof Hn as [Hlen Hall]%normalizeTasks_inv. split_and!.
  - exact Hlen.
  - intros ->. cbn in Hlen. by destruct out.
  - intros k r t Hk Hr Ht. destruct (Hall k r Hk) as (seen & task & Hrec & Hout).
    assert (task = t) as -> by congruence. rewrite Hr in Hrec.
    apply normalizeRecord_inv in Hrec as (_ & Hti & Hre & Htt & Hp & Hs & Hno & Hc).
    cbn in *. split_and!; try done.
    destruct (completedAt t) as [c|] eqn:Hco; [|done].
    destruct Hc as [Hc _]. destruct Hc as [Hc|[? Hc]]; [by eexists|congruence|done].
Qed.

(** *** The initial load *)

(** A load that finishes while its effect is mounted always ends with
    [loading] false and never touches the undo slot.  When the fetch
    fails, the body is no JSON, the response is not [ok] or
    [normalizeTasks] throws, the collection stays as it is and [error]
    holds a message.  Otherwise the collection is replaced, whatever it
    held, by the normalized tasks, or by the seed data when there are
    none, and [error] stays as it was. *)
Theorem load_finish_mounted now crypto resp h :
  let h' := load_finish true now crypto resp h in
  loading h' = false
  ∧ lastDeleted (store h') = lastDeleted (store h)
  ∧ (match resp with
     | Body data =>
         match normalizeTasks now crypto data with
         | Some normalized =>
             tasks (store h') =
               (if decide (normalized = []) then generateSalesTasks 50 else normalized)
             ∧ error h' = error h
         | None => tasks (store h') = tasks (store h) ∧ is_Some (error h')
         end
     | _ => tasks (store h') = tasks (store h) ∧ is_Some (error h')
     end).
Proof.
  cbn zeta. unfold load_finish, load_outcome.
  destruct resp as [m|st|m|data]; cbn; try (split_and!; by eauto).
  destruct (normalizeTasks now crypto data) as [normalized|]; cbn;
    [|split_and!; by eauto].
  split_and!; [done..| |done]. by destruct normalized.
Qed.

Lemma load_starts_set n : ∀ h,
  load_starts true h n =
    (true, 0%nat,
     match n with
     | O => h
     | S _ => mkHook (store h) false (error h) true
     end).
Proof.
  induction n as [|n IH]; intros h; [done|].
  cbn [load_starts load_start]. rewrite IH. by destruct n.
Qed.

(** However many times the hook is mounted, [load] starts exactly one
    fetch, on the first mount; the calls that follow only set [loading]
    to false.  None of these calls changes the collection, the undo slot
    or [error]. *)
Theorem load_fetches_once h n :
  let '(flag, fetches, h') := load_starts false h (S n) in
  flag = true ∧ fetches = 1%nat
  ∧ store h' = store h ∧ error h' = error h
  ∧ loading h' = (if n is O then loading h else false).
Proof.
  cbn [load_starts load_start]. rewrite load_starts_set. by destruct n.
Qed.

(** When the effect that started the fetch is cleaned up before the
    response is there (a remount), the response is dropped; the flag is
    already set, so the mount that follows starts no fetch.  The hook ends
    with [loading] false, no new error and the collection it had: the
    tasks are never loaded. *)
Theorem load_lost_after_remount now crypto resp h :
  let '(flag1, pending1, h1) := load_start false h in
  let '(flag2, pending2, h2) := load_start flag1 h1 in
  let h3 := load_finish false now crypto resp h2 in
  pending1 = true ∧ pending2 = false
  ∧ store h3 = store h ∧ error h3 = error h ∧ loading h3 = false.
Proof. done. Qed.

End UseTasks.


(** ** The claims on concrete inputs, under the sample runtime *)


(** C7 on the batch holding [call_raw]: [normalizeTasks] returns a task for
    it, and the [timeTaken] 2.5 of the record is stored as 3. *)
Lemma timeTaken_normalization_witness :
  ∃ out t,
    normalizeTasks sample_StringToNumber sample_Date_parse sample_toISOString
      sample_now None (Some [Some call_raw]) = Some out
    ∧ out !! 0%nat = Some t
    ∧ Raw.timeTaken call_raw = VNum (Fin (5 # 2))
    ∧ timeTaken t = num_of_Z 3
    ∧ time_ok (timeTaken t) = true.
Proof.
  assert (normalizeTasks sample_StringToNumber sample_Date_parse sample_toISOString
            sample_now None (Some [Some call_raw]) = Some [call_task]) as Hn
    by (vm_compute; reflexivity).
  destruct (timeTaken_normalization sample_StringToNumber sample_Date_parse
              sample_toISOString) as (_ & Hround & Hnorm & _ & _ & Hreach).
  destruct (Hnorm sample_now None (Some [Some call_raw]) [call_task] Hn)
    as [_ Hall].
  destruct (Hall 0%nat (Some call_raw) eq_refl) as (t & Ht & Htt).
  exists [call_task], t. split_and!; [exact Hn|exact Ht|reflexivity| |].
  - rewrite Htt.
    exact (proj1 (Hround (VNum (Fin (5 # 2))) (5 # 2) eq_refl eq_refl)).
  - destruct (Hreach (mkStore [call_task] None)) as [Hs _].
    + by eapply reach_load.
    + apply Hs. by eapply list_elem_of_lookup_2.
Defined.



(** C4 as stated fails on the store reached by adding a task with id a and
    deleting it: deleting the unknown id zzz empties the undo slot. *)
Lemma delete_unknown_id_empties_slot :
  let s := run sample_StringToNumber sample_toISOString initial
             [OpAdd sample_now None sample_now (raw_id "a"); OpDelete "a"] in
  ("zzz" ∉ id <$> tasks s)
  ∧ is_Some (lastDeleted s)
  ∧ lastDeleted (step sample_StringToNumber sample_toISOString s (OpDelete "zzz")) = None
  ∧ step sample_StringToNumber sample_toISOString s (OpDelete "zzz") ≠ s.
Proof.
  cbn zeta. split_and!.
  - vm_compute. by intros ?%elem_of_nil.
  - vm_compute. by eexists.
  - vm_compute. reflexivity.
  - vm_compute. discriminate.
Qed.

(** C4 as amended, on the store holding [report] with [call_task] in the
    undo slot. *)
Lemma unknown_id_update_delete_witness :
  let s := mkStore [report] (Some call_task) in
  ("zzz" ∉ id <$> tasks s)
  ∧ step sample_StringToNumber sample_toISOString s
      (OpUpdate (λ _, sample_now) "zzz" (patch_of_title (VStr "x"))) = s
  ∧ tasks (step sample_StringToNumber sample_toISOString s (OpDelete "zzz")) = tasks s
  ∧ lastDeleted (step sample_StringToNumber sample_toISOString s (OpDelete "zzz")) = None.
Proof.
  cbn zeta.
  assert ("zzz" ∉ id <$> tasks (mkStore [report] (Some call_task))) as Hi.
  { cbn. intros [=]%list_elem_of_singleton. }
  split; [exact Hi|].
  exact (unknown_id_update_delete sample_StringToNumber sample_toISOString
           (mkStore [report] (Some call_task)) "zzz" (λ _, sample_now)
           (patch_of_title (VStr "x")) Hi).
Defined.

(** C6 as stated fails when [undoDelete] is called from the render the
    [deleteTask] was called from.  In the store holding [report] and
    [call_task] with an empty slot, that [undoDelete] has seen an empty
    slot and returns at once: [report] is not restored and stays in the
    slot.  And in the store whose slot holds [report], two calls of the
    [undoDelete] of one render append [report] twice: the second call,
    made when the slot is already empty, is not a no-op. *)
Lemma delete_then_undo_same_render :
  let s := mkStore [report; call_task] None in
  let r := mkStore [call_task] (Some report) in
  report ∈ tasks s
  ∧ id report = "t1"
  ∧ step_from sample_StringToNumber sample_toISOString s
      (step_from sample_StringToNumber sample_toISOString s s (OpDelete "t1")) OpUndo
    = mkStore [call_task] (Some report)
  ∧ step_from sample_StringToNumber sample_toISOString r r OpUndo
    = mkStore [call_task; report] None
  ∧ step_from sample_StringToNumber sample_toISOString r
      (step_from sample_StringToNumber sample_toISOString r r OpUndo) OpUndo
    = mkStore [call_task; report; report] None.
Proof.
  cbn zeta. split_and!; [constructor|reflexivity|vm_compute; reflexivity..].
Qed.

(** C6 as amended, on the store holding [report] and [call_task]: deleting
    t1 and calling the [undoDelete] of the render that follows, whose slot
    holds [report], moves [report] to the end. *)
Lemma delete_then_undo_witness :
  let s := mkStore [report; call_task] None in
  let render := mkStore [call_task] (Some report) in
  step sample_StringToNumber sample_toISOString s (OpDelete "t1") = render
  ∧ ∃ t0, t0 ∈ tasks s ∧ id t0 = "t1"
    ∧ (NoDup (id <$> tasks s) → t0 = report)
    ∧ let s2 := step_from sample_StringToNumber sample_toISOString render
                  (step sample_StringToNumber sample_toISOString s (OpDelete "t1"))
                  OpUndo in
      tasks s2 = filter (λ u, id u ≠ "t1") (tasks s) ++ [t0]
      ∧ lastDeleted s2 = None
      ∧ step sample_StringToNumber sample_toISOString s2 OpUndo = s2
      ∧ ∀ render' s', lastDeleted render' = None →
          step_from sample_StringToNumber sample_toISOString render' s' OpUndo = s'.
Proof.
  cbn zeta. split; [vm_compute; reflexivity|].
  apply (delete_then_undo sample_StringToNumber sample_toISOString
           (mkStore [report; call_task] None) "t1" report
           (mkStore [call_task] (Some report))).
  - constructor.
  - reflexivity.
  - vm_compute. reflexivity.
Defined.

(** C5 under the sample runtime: [normalizeTasks] returns [collided], whose
    first and third ids are the same. *)
Lemma normalize_suffix_collides_witness :
  normalizeTasks sample_StringToNumber sample_Date_parse sample_toISOString
    sample_now None
    (Some [Some (raw_id "a-2"); Some (raw_id "a"); Some (raw_id "a")]) = Some collided
  ∧ id <$> collided = ["a-2"; "a"; "a-2"]
  ∧ ¬ NoDup (id <$> collided).
Proof.
  assert (normalizeTasks sample_StringToNumber sample_Date_parse sample_toISOString
            sample_now None
            (Some [Some (raw_id "a-2"); Some (raw_id "a"); Some (raw_id "a")])
          = Some collided) as Hn by (vm_compute; reflexivity).
  pose proof (normalize_suffix_collides sample_StringToNumber sample_Date_parse
                sample_toISOString sample_now None collided Hn) as Hids.
  split_and!; [exact Hn|exact Hids|].
  rewrite Hids. intros Hnd. apply NoDup_cons in Hnd as [Hnotin _].
  apply Hnotin. do 2 constructor.
Defined.

(** C10 on the collection holding [report] and [call_task]: a patch aimed
    at t1 leaves [call_task] at position 1. *)
Lemma addTask_updateTask_frame_witness :
  updateTask sample_StringToNumber sample_toISOString (λ _, sample_now) "t1"
    (patch_of_title (VStr "Renamed")) [report; call_task] !! 1%nat = Some call_task.
Proof.
  destruct (addTask_updateTask_frame sample_StringToNumber sample_toISOString)
    as [_ Hupd].
  destruct (Hupd (λ _, sample_now) "t1" (patch_of_title (VStr "Renamed"))
              [report; call_task]) as (_ & _ & Hframe).
  apply Hframe; [reflexivity|discriminate].
Defined.

(** C3, on the collection holding [report] (title Write report,
    [timeTaken] 7).  An invalid patch value is not ignored: a patch whose
    title is blank, or is not a string, replaces the title by the default
    Untitled Task, where the other fields keep their value; and a patch
    whose [timeTaken] is -5, or 0, sets [timeTaken] to 1, the second [map]
    undoing the first one, which had kept the 7. *)
Lemma updateTask_invalid_patch_overwrites :
  title report = "Write report"
  ∧ timeTaken report = num_of_Z 7
  ∧ title <$> updateTask sample_StringToNumber sample_toISOString (λ _, sample_now)
                "t1" (patch_of_title (VStr "   ")) [report]
    = ["Untitled Task"]
  ∧ title <$> updateTask sample_StringToNumber sample_toISOString (λ _, sample_now)
                "t1" (patch_of_title (VNum (num_of_Z 42))) [report]
    = ["Untitled Task"]
  ∧ timeTaken <$> updateTask sample_StringToNumber sample_toISOString (λ _, sample_now)
                    "t1" (patch_of_timeTaken (VNum (num_of_Z (-5)))) [report]
    = [num_of_Z 1]
  ∧ timeTaken <$> updateTask sample_StringToNumber sample_toISOString (λ _, sample_now)
                    "t1" (patch_of_timeTaken (VNum (num_of_Z 0))) [report]
    = [num_of_Z 1].
Proof. split_and!; vm_compute; reflexivity. Qed.

(** On the collection holding [report]: the patch of [timeTaken] to 12
    stores 12 and leaves the title and the absent [completedAt]; the patch
    of the status to Done stamps [completedAt] with the time of the
    call. *)
Lemma updateTask_target_fields_witness :
  (∃ t', updateTask sample_StringToNumber sample_toISOString (λ _, sample_now) "t1"
           (patch_of_timeTaken (VNum (num_of_Z 12))) [report] !! 0%nat = Some t'
     ∧ id t' = "t1"
     ∧ title t' = "Write report"
     ∧ timeTaken t' = num_of_Z 12
     ∧ completedAt t' = None)
  ∧ (∃ t', updateTask sample_StringToNumber sample_toISOString (λ _, sample_now) "t1"
             (patch_of_status (VStr "Done")) [report] !! 0%nat = Some t'
       ∧ status t' = Done
       ∧ completedAt t' = Some (sample_toISOString sample_now)).
Proof.
  split.
  - destruct (updateTask_target_fields sample_StringToNumber sample_toISOString
                (λ _, sample_now) "t1" (patch_of_timeTaken (VNum (num_of_Z 12)))
                [report] 0%nat report eq_refl eq_refl)
      as (t' & Hk & Hid & _ & Htitle & _ & _ & Hst & _ & Htime & Hc).
    exists t'. split_and!; [exact Hk|exact Hid|exact Htitle| |].
    + rewrite Htime. vm_compute. reflexivity.
    + rewrite Hc, Hst. reflexivity.
  - destruct (updateTask_target_fields sample_StringToNumber sample_toISOString
                (λ _, sample_now) "t1" (patch_of_status (VStr "Done"))
                [report] 0%nat report eq_refl eq_refl)
      as (t' & Hk & _ & _ & _ & _ & _ & Hst & _ & _ & Hc).
    exists t'. split_and!; [exact Hk|exact Hst|].
    rewrite Hc, Hst. reflexivity.
Defined.

(** ** The theorems on unique ids on concrete inputs *)

(** The batch holding [call_raw] and [stale_raw], with the distinct ids x1
    and x2: [normalizeTasks] returns two tasks that keep them. *)
Lemma normalize_distinct_ids_witness :
  ∃ out,
    normalizeTasks sample_StringToNumber sample_Date_parse sample_toISOString
      sample_now None (Some [Some call_raw; Some stale_raw]) = Some out
    ∧ length out = 2%nat
    ∧ id <$> out = ["x1"; "x2"]
    ∧ NoDup (id <$> out).
Proof.
  assert (∃ out,
    normalizeTasks sample_StringToNumber sample_Date_parse sample_toISOString
      sample_now None (Some [Some call_raw; Some stale_raw]) = Some out
    ∧ length out = 2%nat) as (out & Hn & Hlen).
  { vm_compute. eexists. split; reflexivity. }
  exists out. split_and!; [exact Hn|exact Hlen|..];
    apply (normalize_distinct_ids sample_StringToNumber sample_Date_parse
             sample_toISOString sample_now None [Some call_raw; Some stale_raw]
             out ["x1"; "x2"] Hn).
  all: try (repeat constructor; fail).
  all: apply NoDup_cons; (split; [|apply NoDup_singleton]);
    intros [=]%list_elem_of_singleton.
Defined.

(** In the store holding [report] and [call_task], adding a task with the
    supplied id n1 appends that id and keeps the ids unique. *)
Lemma unique_ids_preserved_witness :
  let s := mkStore [report; call_task] None in
  id <$> tasks (step sample_StringToNumber sample_toISOString s
                  (OpAdd sample_now None sample_now (raw_id "n1")))
    = ["t1"; "x1"; "n1"]
  ∧ NoDup (id <$> tasks (step sample_StringToNumber sample_toISOString s
                           (OpAdd sample_now None sample_now (raw_id "n1")))).
Proof.
  cbn zeta.
  assert (NoDup (id <$> tasks (mkStore [report; call_task] None))) as Hnd.
  { cbn. apply NoDup_cons. split; [|apply NoDup_singleton].
    intros [=]%list_elem_of_singleton. }
  destruct (unique_ids_preserved sample_StringToNumber sample_toISOString
              (mkStore [report; call_task] None) Hnd) as (_ & _ & _ & Hadd).
  apply (Hadd sample_now None sample_now (raw_id "n1") "n1"); [reflexivity|].
  cbn. intros [[=]|[[=]|[]%elem_of_nil]%elem_of_cons]%elem_of_cons.
Defined.

(** ** The further theorems on concrete inputs *)

(** The store loaded from [call_raw] is reachable: the title of its task
    is trimmed and not empty. *)
Lemma reachable_title_ok_witness :
  title call_task = "Call client" ∧ title_ok call_task.
Proof.
  split; [reflexivity|].
  assert (reachable sample_StringToNumber sample_Date_parse sample_toISOString
            (mkStore [call_task] None)) as Hr.
  { apply (reach_load _ _ _ sample_now None (Some [Some call_raw])).
    vm_compute. reflexivity. }
  destruct (reachable_title_ok sample_StringToNumber sample_Date_parse
              sample_toISOString _ Hr) as [Ht _].
  apply Ht. constructor.
Defined.

(** In the same store the revenue is finite. *)
Lemma reachable_revenue_finite_witness :
  isFinite (revenue call_task) = true.
Proof.
  assert (reachable sample_StringToNumber sample_Date_parse sample_toISOString
            (mkStore [call_task] None)) as Hr.
  { apply (reach_load _ _ _ sample_now None (Some [Some call_raw])).
    vm_compute. reflexivity. }
  destruct (reachable_revenue_finite sample_StringToNumber sample_Date_parse
              sample_toISOString _ Hr) as [Ht _].
  apply (Ht call_task). constructor.
Defined.

(** From the empty store, adding a Done task and patching it to Todo keeps
    [completedAt] in step with the status. *)
Lemma run_keeps_completedAt_witness :
  store_all completed_iff_done
    (run sample_StringToNumber sample_toISOString initial
       [OpAdd sample_now None sample_now
          (Raw.mk (VStr "d1") VUndef VUndef VUndef VUndef (VStr "Done") VUndef VUndef VUndef);
        OpUpdate (λ _, sample_now) "d1" (patch_of_status (VStr "Todo"))]).
Proof.
  apply run_keeps_completedAt. split; cbn; [|done].
  intros t Ht. by apply elem_of_nil in Ht.
Defined.

(** In the store holding [report] and [call_task], deleting t1, adding a
    task and calling the [undoDelete] of a render whose slot holds
    [report] puts [report] back after the new task. *)
Lemma undo_after_adds_and_updates_witness :
  let s := mkStore [report; call_task] None in
  let ops := [OpAdd sample_now None sample_now (raw_id "n1")] in
  let render := mkStore [call_task] (Some report) in
  ∃ t0, t0 ∈ tasks s ∧ id t0 = "t1" ∧
    let s1 := run sample_StringToNumber sample_toISOString
                (step sample_StringToNumber sample_toISOString s (OpDelete "t1"))
                ops in
    lastDeleted s1 = Some t0
    ∧ step_from sample_StringToNumber sample_toISOString render s1 OpUndo
      = mkStore (tasks s1 ++ [t0]) None
    ∧ ∀ render' s' op, op ∈ ops →
        step_from sample_StringToNumber sample_toISOString render' s' op
        = step sample_StringToNumber sample_toISOString s' op.
Proof.
  cbn zeta.
  apply (undo_after_adds_and_updates sample_StringToNumber sample_toISOString
           (mkStore [report; call_task] None) "t1" report
           [OpAdd sample_now None sample_now (raw_id "n1")]
           (mkStore [call_task] (Some report))).
  - constructor.
  - reflexivity.
  - reflexivity.
  - vm_compute. reflexivity.
Defined.

(** In the store holding [report] and [call_task], deleting t1 and then
    x1 and calling the [undoDelete] of the render that follows brings back
    [call_task] only. *)
Lemma second_delete_discards_first_witness :
  let s := mkStore [report; call_task] None in
  let s2 := step sample_StringToNumber sample_toISOString
              (step sample_StringToNumber sample_toISOString s (OpDelete "t1"))
              (OpDelete "x1") in
  s2 = mkStore [] (Some call_task)
  ∧ "t1" ∉ id <$> tasks (step_from sample_StringToNumber sample_toISOString s2 s2 OpUndo).
Proof.
  cbn zeta. split; [vm_compute; reflexivity|].
  apply (second_delete_discards_first sample_StringToNumber sample_toISOString
           (mkStore [report; call_task] None) "t1" "x1").
  reflexivity.
Defined.

(** In the store holding [report] and [call_task], deleting t1 and
    calling the [undoDelete] of the render that follows gives the same two
    tasks, [report] last. *)
Lemma delete_undo_permutation_witness :
  let s := mkStore [report; call_task] None in
  let render := mkStore [call_task] (Some report) in
  let s2 := step_from sample_StringToNumber sample_toISOString render
              (step sample_StringToNumber sample_toISOString s (OpDelete "t1")) OpUndo in
  tasks s2 = [call_task; report]
  ∧ tasks s2 ≡ₚ tasks s
  ∧ lastDeleted s2 = None
  ∧ tasks s2 = filter (λ u, id u ≠ "t1") (tasks s) ++ [report].
Proof.
  cbn zeta. split; [vm_compute; reflexivity|].
  destruct (delete_undo_permutation sample_StringToNumber sample_toISOString
              (mkStore [report; call_task] None) "t1"
              (mkStore [call_task] (Some report)))
    as (Hperm & Hslot & _ & Hlast).
  - cbn. apply NoDup_cons. split; [|apply NoDup_singleton].
    intros [=]%list_elem_of_singleton.
  - vm_compute. reflexivity.
  - split_and!; [exact Hperm|exact Hslot|].
    apply Hlast; [constructor|reflexivity].
Defined.

(** A patch that gives an id only leaves the collection holding [report]
    as it is. *)
Lemma updateTask_empty_patch_witness :
  updateTask sample_StringToNumber sample_toISOString (λ _, sample_now) "t1"
    (raw_id "other") [report] = [report].
Proof.
  apply updateTask_empty_patch; [reflexivity|].
  intros t ->%list_elem_of_singleton. reflexivity.
Defined.

(** In the collection holding [report] and [call_task], a new task that
    supplies the id t1 is stored as t1-2, and the ids stay unique. *)
Lemma addTask_unique_iff_witness :
  id <$> addTask sample_StringToNumber sample_toISOString sample_now None sample_now
           (raw_id "t1") [report; call_task] = ["t1"; "x1"; "t1-2"]
  ∧ NoDup (id <$> addTask sample_StringToNumber sample_toISOString sample_now None
                    sample_now (raw_id "t1") [report; call_task]).
Proof.
  assert (NoDup (id <$> [report; call_task])) as Hnd.
  { cbn. apply NoDup_cons. split; [|apply NoDup_singleton].
    intros [=]%list_elem_of_singleton. }
  destruct (addTask_unique_iff sample_StringToNumber sample_toISOString sample_now
              None sample_now (raw_id "t1") [report; call_task] Hnd) as [Hids Hiff].
  split; [rewrite Hids; vm_compute; reflexivity|].
  apply Hiff. intros _. vm_compute.
  intros [[=]|[[=]|[]%elem_of_nil]%elem_of_cons]%elem_of_cons.
Defined.

(** In the batch with the supplied ids a-2, a and a, the third task starts
    from a, which the second task has, and gets a-2. *)
Lemma normalize_id_rule_witness :
  ∃ t, collided !! 2%nat = Some t ∧ id t = "a" +:+ "-" +:+ pretty 2%nat.
Proof.
  assert (normalizeTasks sample_StringToNumber sample_Date_parse sample_toISOString
            sample_now None
            (Some [Some (raw_id "a-2"); Some (raw_id "a"); Some (raw_id "a")])
          = Some collided) as Hn by (vm_compute; reflexivity).
  eexists. split; [reflexivity|].
  rewrite (normalize_id_rule sample_StringToNumber sample_Date_parse sample_toISOString
             sample_now None _ collided 2%nat (Some (raw_id "a")) _ Hn eq_refl eq_refl).
  vm_compute. reflexivity.
Defined.

(** The batch of [null] and the empty record gets the ids task-now-0 and
    task-now-1. *)
Lemma normalize_synthetic_ids_witness :
  normalizeTasks sample_StringToNumber sample_Date_parse sample_toISOString
    sample_now None (Some [None; Some Raw.empty]) = Some blank_pair
  ∧ id <$> blank_pair = ["task-1700000000000-0"; "task-1700000000000-1"]
  ∧ NoDup (id <$> blank_pair).
Proof.
  assert (normalizeTasks sample_StringToNumber sample_Date_parse sample_toISOString
            sample_now None (Some [None; Some Raw.empty]) = Some blank_pair) as Hn
    by (vm_compute; reflexivity).
  split; [exact Hn|].
  destruct (normalize_synthetic_ids sample_StringToNumber sample_Date_parse
              sample_toISOString sample_now [None; Some Raw.empty] blank_pair Hn)
    as [Hids Hnd].
  { intros r [->|[->|[]%elem_of_nil]%elem_of_cons]%elem_of_cons; reflexivity. }
  split; [|exact Hnd]. rewrite Hids. vm_compute. reflexivity.
Defined.

Lemma decimal_round_trip ms :
  decimal_Date_parse (decimal_toISOString ms) = Some ms.
Proof.
  unfold decimal_Date_parse, decimal_toISOString.
  rewrite NilEmpty.isi. cbn. by rewrite DecimalZ.of_to.
Qed.

(** Under the decimal date functions, the batch holding [call_raw] is
    normalized without an exception. *)
Lemma normalizeTasks_returns_witness :
  ∃ out, normalizeTasks sample_StringToNumber decimal_Date_parse decimal_toISOString
           sample_now None (Some [Some call_raw]) = Some out
         ∧ length out = 1%nat.
Proof.
  apply (normalizeTasks_returns sample_StringToNumber decimal_Date_parse
           decimal_toISOString sample_now None [Some call_raw]).
  - intros ms _. apply decimal_round_trip.
  - vm_compute. split; discriminate.
  - vm_compute. discriminate.
  - intros r ms ->%list_elem_of_singleton. discriminate.
Defined.

(** Under the sample runtime, a batch whose second element is
    [last_day_raw] makes [normalizeTasks] throw. *)
Lemma normalizeTasks_throws_witness :
  normalizeTasks sample_StringToNumber sample_Date_parse sample_toISOString
    sample_now None (Some [Some call_raw; Some last_day_raw]) = None.
Proof.
  apply (normalizeTasks_throws sample_StringToNumber sample_Date_parse
           sample_toISOString sample_now None _ 1%nat last_day_raw max_time max_time).
  - reflexivity.
  - reflexivity.
  - reflexivity.
  - reflexivity.
  - vm_compute. reflexivity.
  - vm_compute. reflexivity.
  - vm_compute. reflexivity.
Defined.

(** The first task of [blank_pair] comes from [null] and has the default
    fields. *)
Lemma normalizeTasks_missing_fields_witness :
  length blank_pair = 2%nat
  ∧ ∃ t, blank_pair !! 0%nat = Some t ∧ title t = "Untitled Task" ∧ status t = Todo.
Proof.
  assert (normalizeTasks sample_StringToNumber sample_Date_parse sample_toISOString
            sample_now None (Some [None; Some Raw.empty]) = Some blank_pair) as Hn
    by (vm_compute; reflexivity).
  destruct (normalizeTasks_missing_fields sample_StringToNumber sample_Date_parse
              sample_toISOString sample_now None _ blank_pair Hn) as (Hlen & _ & Hdef).
  split; [exact Hlen|]. eexists. split; [reflexivity|].
  edestruct (Hdef 0%nat None) as (Ht & _ & _ & _ & Hs & _); [reflexivity..|].
  split; [exact Ht|exact Hs].
Defined.

(** ** The CSV export *)

(** C9, at a task whose id holds a comma.  The first cell of a row is the id
    as it is, not [escapeCsv] of it, so the row of the task with id a,b
    starts with the two cells a and b; the title, which also holds a comma,
    is quoted. *)
Theorem toCSV_id_not_escaped (NumberToString : Q → string) :
  let t := mkTask "a,b" "Pay, then file" (num_of_Z 10) (num_of_Z 1) Low Todo ""
             "2024-05-01T09:00:00.000Z" None in
  (∀ u, csv_row NumberToString u !! 0%nat = Some (id u))
  ∧ escapeCsv (id t) = quoted "a,b"
  ∧ escapeCsv (id t) ≠ id t
  ∧ toCSV NumberToString [t] =
      "id,title,revenue,timeTaken,priority,status,notes" +:+ String LF
        ("a,b," +:+ quoted "Pay, then file" +:+ "," +:+ NumberToString (inject_Z 10)
         +:+ "," +:+ NumberToString (inject_Z 1) +:+ ",Low,Todo,").
Proof.
  cbn zeta. split_and!; [done|reflexivity|discriminate|].
  unfold toCSV, csv_row. cbn. reflexivity.
Qed.

(** *** What [escapeCsv] does to a value *)

Lemma double_quotes_plain v : has_special v = false → double_quotes v = v.
Proof.
  induction v as [|c v IH]; [done|]. cbn. intros H.
  apply orb_false_elim in H as [Hc Hv]. unfold special_char in Hc.
  apply orb_false_elim in Hc as [Hc _]. apply orb_false_elim in Hc as [Hc _].
  apply orb_false_elim in Hc as [Hc _]. rewrite Hc. by rewrite IH.
Qed.

Lemma double_quotes_inj a : ∀ b, double_quotes a = double_quotes b → a = b.
Proof.
  induction a as [|c a IH]; intros [|d b]; cbn.
  - done.
  - by destruct (Ascii.eqb d dquote).
  - by destruct (Ascii.eqb c dquote).
  - destruct (Ascii.eqb_spec c dquote) as [->|Hc],
      (Ascii.eqb_spec d dquote) as [->|Hd]; intros H.
    + injection H as H. by rewrite (IH b H).
    + injection H as H _. by destruct Hd.
    + injection H as H _. by destruct Hc.
    + injection H as -> H. by rewrite (IH b H).
Qed.

Lemma length_double_quotes v : (String.length v ≤ String.length (double_quotes v))%nat.
Proof.
  induction v as [|c v IH]; cbn; [done|].
  destruct (Ascii.eqb c dquote); cbn; lia.
Qed.

Lemma append_cons c (a b : string) : String c a +:+ b = String c (a +:+ b).
Proof. reflexivity. Qed.

Lemma append_assoc (a b c : string) : (a +:+ b) +:+ c = a +:+ (b +:+ c).
Proof. induction a as [|x a IH]; [done|]. by rewrite !append_cons, IH. Qed.

Lemma length_append (a b : string) :
  String.length (a +:+ b) = (String.length a + String.length b)%nat.
Proof. induction a as [|x a IH]; [done|]. rewrite append_cons. cbn. by rewrite IH. Qed.

Lemma append_last_inj c a : ∀ b,
  a +:+ String c EmptyString = b +:+ String c EmptyString → a = b.
Proof.
  induction a as [|x a IH]; intros [|y b]; rewrite ?append_cons; intros H.
  - done.
  - injection H as _ H. destruct b; [done|]. by rewrite append_cons in H.
  - injection H as _ H. destruct a; [done|]. by rewrite append_cons in H.
  - injection H as -> H. by rewrite (IH b H).
Qed.

Lemma length_quoted v : String.length (quoted v) = S (S (String.length v)).
Proof. unfold quoted. cbn. rewrite length_append. cbn. lia. Qed.

(** [escapeCsv] returns a value unchanged exactly when it holds no comma,
    double quote, line feed or carriage return; any other value comes back
    longer, between two double quotes, with every double quote of the
    value doubled. *)
Theorem escapeCsv_unchanged_iff v :
  (escapeCsv v = v ↔ has_special v = false)
  ∧ (has_special v = true →
       escapeCsv v = quoted (double_quotes v)
       ∧ (String.length v + 2 ≤ String.length (escapeCsv v))%nat).
Proof.
  unfold escapeCsv. destruct (has_special v) eqn:H; split.
  - split; [|done]. intros Heq. pose proof (length_double_quotes v) as Hlen.
    apply (f_equal String.length) in Heq. rewrite length_quoted in Heq. lia.
  - intros _. split; [done|]. rewrite length_quoted.
    pose proof (length_double_quotes v). lia.
  - split; [done|]. intros _. by apply double_quotes_plain.
  - done.
Qed.

(** [escapeCsv] never gives two different values the same text. *)
Theorem escapeCsv_inj a b : escapeCsv a = escapeCsv b → a = b.
Proof.
  unfold escapeCsv.
  destruct (has_special a) eqn:Ha, (has_special b) eqn:Hb; intros H.
  - unfold quoted in H. injection H as H.
    apply append_last_inj in H. by apply double_quotes_inj.
  - rewrite (double_quotes_plain b Hb) in H. rewrite <- H in Hb.
    unfold quoted in Hb. by cbn in Hb.
  - rewrite (double_quotes_plain a Ha) in H. rewrite H in Ha.
    unfold quoted in Ha. by cbn in Ha.
  - by rewrite (double_quotes_plain a Ha), (double_quotes_plain b Hb) in H.
Qed.

(** Two values with the same escaped text are the same value. *)
Lemma escapeCsv_inj_witness :
  escapeCsv "a,b" = quoted "a,b" ∧ "a,b" = "a,b".
Proof.
  split; [reflexivity|]. by apply (escapeCsv_inj "a,b" "a,b").
Defined.

(** *** The lines of [toCSV] *)

Lemma concat_snoc sep x (l : list string) y :
  String.concat sep (x :: l ++ [y]) = String.concat sep (x :: l) +:+ sep +:+ y.
Proof.
  revert x. induction l as [|z l IH]; intros x.
  - reflexivity.
  - change (String.concat sep (x :: (z :: l) ++ [y]))
      with (x +:+ sep +:+ String.concat sep (z :: l ++ [y])).
    change (String.concat sep (x :: z :: l))
      with (x +:+ sep +:+ String.concat sep (z :: l)).
    by rewrite IH, !append_assoc.
Qed.

(** The text [toCSV] returns for the empty collection is the header line
    alone, and the text for a collection followed by one more task is the
    text for the collection, a line feed and the row of that task: earlier
    lines never change. *)
Theorem toCSV_snoc (NumberToString : Q → string) tasks t :
  toCSV NumberToString [] = "id,title,revenue,timeTaken,priority,status,notes"
  ∧ toCSV NumberToString (tasks ++ [t]) =
      toCSV NumberToString tasks +:+ String LF EmptyString
        +:+ String.concat "," (csv_row NumberToString t).
Proof.
  split; [reflexivity|]. unfold toCSV. cbn zeta.
  rewrite !fmap_app. cbn [fmap list_fmap]. apply concat_snoc.
Qed.
